(** * Icon generator CLI: parameter validation and normalization

    Shallow embedding of the parameter validators (profile, mode, include,
    quality, filter, padding, icon, background, the four color fields,
    splashscreenIconRatio, output, assets) and of [parseArgv], followed by
    the properties of the validation layer.

    Conventions of the embedding:
    - a JavaScript Number is an IEEE-754 binary64 value ([spec_float] with
      precision 53 and maximal exponent 1024);
    - a JavaScript string is a Rocq [string] holding its UTF-8 bytes;
    - the record [argv] is a finite map from property names to values,
      threaded through a small state/exit monad, because the validators
      mutate it in place and terminate the process on invalid input. *)

From Stdlib Require Import ZArith Lia Bool Ascii String List.
From Stdlib Require Import SpecFloat DecimalString.
From stdpp Require Import base option list strings gmap.

Local Open Scope string_scope.
Local Open Scope Z_scope.

(** ** Numbers *)

Module Number.

Definition number : Type := spec_float.

Definition prec : Z := 53.
Definition emax : Z := 1024.

Definition NaN : number := S754_nan.
Definition Infinity : number := S754_infinity false.

(** The global [isNaN] on a Number. *)
Definition isNaN (x : number) : bool :=
  match x with S754_nan => true | _ => false end.

(** [x < y], [x <= y] and [x === y] on Numbers: false as soon as one side
    is NaN, and the two zeros compare equal. *)
Definition lt (x y : number) : bool := SFltb x y.
Definition le (x y : number) : bool := SFleb x y.
Definition gt (x y : number) : bool := SFltb y x.
Definition strict_eq (x y : number) : bool := SFeqb x y.

(** The Number value of the mathematical value [(-1)^neg * m * 10^e]
    ([0 <= m]), rounded to nearest, ties to even, overflowing to an
    infinity; a result that rounds to zero keeps the sign. *)
Definition of_decimal (neg : bool) (m : Z) (e : Z) : number :=
  if 0 <=? e then
    binary_normalize prec emax (cond_Zopp neg (m * 10 ^ e)) 0 neg
  else
    match m with
    | Zpos p =>
        let '(q, e', l) :=
          SFdiv_core_binary prec emax (Zpos p) 0 (10 ^ (- e)) 0 in
        binary_round_aux prec emax neg q e' l
    | _ => S754_zero neg
    end.

Definition of_Z (z : Z) : number := of_decimal (z <? 0) (Z.abs z) 0.

(** Whether two Numbers are the same value, bit for bit. *)
Definition same (x y : number) : bool :=
  match x, y with
  | S754_zero s, S754_zero t => Bool.eqb s t
  | S754_infinity s, S754_infinity t => Bool.eqb s t
  | S754_nan, S754_nan => true
  | S754_finite s m e, S754_finite t n f =>
      Bool.eqb s t && Pos.eqb m n && Z.eqb e f
  | _, _ => false
  end.

(** [num / den < 10^n]. *)
Definition below_pow10 (num den n : Z) : bool :=
  if 0 <=? n then num <? den * 10 ^ n else num * 10 ^ (- n) <? den.

(** The least [n], from [n] on, with [num / den < 10^n]. *)
Fixpoint decimal_exponent (fuel : nat) (num den n : Z) : Z :=
  match fuel with
  | O => n
  | S fuel' =>
      if below_pow10 num den n then n
      else decimal_exponent fuel' num den (n + 1)
  end.

(** The digits of [Number::toString]: the least [k], from [k] on, for
    which some [s] of [k] digits has [s * 10^(n-k)] round to [x], with the
    [s] nearest to [x] (the even one on a tie); [x] is [num / den], with
    [10^(n-1) <= x < 10^n]. The result is [s] and its [n], which is one
    more when [s] is a power of ten reached by rounding up. *)
Fixpoint shortest (fuel : nat) (x : number) (num den n k : Z) : Z * Z :=
  match fuel with
  | O => (0, n)
  | S fuel' =>
      let a := if 0 <=? k - n then num * 10 ^ (k - n) else num in
      let b := if 0 <=? k - n then den else den * 10 ^ (n - k) in
      let lo := a / b in
      let hi := lo + 1 in
      let fits s := same (of_decimal false s (n - k)) x in
      let found s := if s =? 10 ^ k then (10 ^ (k - 1), n + 1) else (s, n) in
      match fits lo, fits hi with
      | true, true =>
          let r := 2 * (a - lo * b) in
          if r <? b then found lo
          else if b <? r then found hi
          else if Z.even lo then found lo else found hi
      | true, false => found lo
      | false, true => found hi
      | false, false => shortest fuel' x num den n (k + 1)
      end
  end.

Fixpoint zeros (n : nat) : string :=
  match n with
  | O => ""
  | S n' => String "0" (zeros n')
  end.

Definition decimal (z : Z) : string := NilZero.string_of_int (Z.to_int z).

(** The notation of [Number::toString] for the digits [s] and the
    exponent [n]: plain digits, digits with a point, or exponent
    notation outside [1e-6 <= x < 1e21]. *)
Definition notation (s n : Z) : string :=
  let digits := decimal s in
  let k := Z.of_nat (String.length digits) in
  if (k <=? n) && (n <=? 21) then digits ++ zeros (Z.to_nat (n - k))
  else if (0 <? n) && (n <=? 21) then
    String.substring 0 (Z.to_nat n) digits ++ "."
    ++ String.substring (Z.to_nat n) (Z.to_nat (k - n)) digits
  else if (-6 <? n) && (n <=? 0) then
    "0." ++ zeros (Z.to_nat (- n)) ++ digits
  else
    let e := n - 1 in
    let exponent := (if e <? 0 then "e-" else "e+") ++ decimal (Z.abs e) in
    if k =? 1 then digits ++ exponent
    else String.substring 0 1 digits ++ "."
         ++ String.substring 1 (Z.to_nat (k - 1)) digits ++ exponent.

(** [Number::toString(x)] in radix 10, for [x] in canonical form. *)
Definition toString (x : number) : string :=
  match x with
  | S754_nan => "NaN"
  | S754_infinity false => "Infinity"
  | S754_infinity true => "-Infinity"
  | S754_zero _ => "0"
  | S754_finite neg m e =>
      let num := if 0 <=? e then Zpos m * 2 ^ e else Zpos m in
      let den := if 0 <=? e then 1 else 2 ^ (- e) in
      let bits := Zpos (digits2_pos m) + e in
      let n := decimal_exponent 8 num den ((bits - 1) * 30103 / 100000 - 1) in
      let '(s, n') := shortest 17 (S754_finite false m e) num den n 1 in
      (if neg then "-" else "") ++ notation s n'
  end.

End Number.

Export Number (number).

(** ** Strings *)

Module Str.

Definition code (c : ascii) : Z := Z.of_N (N_of_ascii c).

(** [StrWhiteSpaceChar]: the one-byte members, then the UTF-8 encodings of
    U+00A0, and of U+1680, U+2000..U+200A, U+2028, U+2029, U+202F, U+205F,
    U+3000 and U+FEFF. *)
Definition ws1 (a : ascii) : bool :=
  ((9 <=? code a) && (code a <=? 13)) || (code a =? 32).

Definition ws2 (a b : ascii) : bool :=
  (code a =? 194) && (code b =? 160).

Definition ws3 (a b c : ascii) : bool :=
  ((code a =? 225) && (code b =? 154) && (code c =? 128))
  || ((code a =? 226) && (code b =? 128)
      && (((128 <=? code c) && (code c <=? 138))
          || (code c =? 168) || (code c =? 169) || (code c =? 175)))
  || ((code a =? 226) && (code b =? 129) && (code c =? 159))
  || ((code a =? 227) && (code b =? 128) && (code c =? 128))
  || ((code a =? 239) && (code b =? 187) && (code c =? 191)).

(** [TrimString(s, start)]. *)
Fixpoint trimStart (s : string) : string :=
  match s with
  | String a r =>
      if ws1 a then trimStart r
      else
        match r with
        | String b r2 =>
            if ws2 a b then trimStart r2
            else
              match r2 with
              | String c r3 => if ws3 a b c then trimStart r3 else s
              | EmptyString => s
              end
        | EmptyString => s
        end
  | EmptyString => s
  end.

Definition digit (c : ascii) : option Z :=
  if (48 <=? code c) && (code c <=? 57) then Some (code c - 48) else None.

(** The longest prefix of decimal digits, and what follows it. *)
Fixpoint digits (s : string) : list Z * string :=
  match s with
  | String c r =>
      match digit c with
      | Some d => let '(ds, rest) := digits r in (d :: ds, rest)
      | None => ([], s)
      end
  | EmptyString => ([], s)
  end.

Definition decimal_value (ds : list Z) : Z :=
  fold_left (fun acc d => 10 * acc + d) ds 0.

(** An optional leading sign: whether it is a minus, and what follows. *)
Definition sign (s : string) : bool * string :=
  match s with
  | String c r =>
      if Ascii.eqb c "-" then (true, r)
      else if Ascii.eqb c "+" then (false, r)
      else (false, s)
  | EmptyString => (false, s)
  end.

(** [parseInt(s, 10)]. *)
Definition parseInt (s : string) : number :=
  let '(neg, s1) := sign (trimStart s) in
  let '(ds, _) := digits s1 in
  match ds with
  | [] => Number.NaN
  | _ => Number.of_decimal neg (decimal_value ds) 0
  end.

(** The [ExponentPart] at the head of [s], if there is a complete one. *)
Definition exponent (s : string) : Z :=
  match s with
  | String c r =>
      if Ascii.eqb c "e" || Ascii.eqb c "E" then
        let '(neg, r1) := sign r in
        let '(ds, _) := digits r1 in
        match ds with
        | [] => 0
        | _ => cond_Zopp neg (decimal_value ds)
        end
      else 0
  | EmptyString => 0
  end.

(** [parseFloat(s)]: the longest prefix of the trimmed string that is a
    [StrDecimalLiteral], converted to its Number value. *)
Definition parseFloat (s : string) : number :=
  let '(neg, s1) := sign (trimStart s) in
  if String.prefix "Infinity" s1 then S754_infinity neg
  else
    let '(ip, r1) := digits s1 in
    let '(fp, r2) :=
      match r1 with
      | String c r => if Ascii.eqb c "." then digits r else ([], r1)
      | EmptyString => ([], r1)
      end in
    match (ip ++ fp)%list with
    | [] => Number.NaN
    | ds =>
        Number.of_decimal neg (decimal_value ds)
          (exponent r2 - Z.of_nat (List.length fp))
    end.

(** [s.split(sep)] for a one-character separator. *)
Fixpoint split (sep : ascii) (s : string) : list string :=
  match s with
  | EmptyString => [EmptyString]
  | String c r =>
      if Ascii.eqb c sep then EmptyString :: split sep r
      else
        match split sep r with
        | h :: t => String c h :: t
        | [] => [String c EmptyString]
        end
  end.

(** [s.includes(needle)]: substring search. *)
Fixpoint includes (needle s : string) : bool :=
  String.prefix needle s
  || match s with
     | String _ r => includes needle r
     | EmptyString => false
     end.

(** [s.endsWith(suffix)]. *)
Definition endsWith (suffix s : string) : bool :=
  let n := String.length s in
  let k := String.length suffix in
  (k <=? n)%nat && String.eqb (String.substring (n - k) k s) suffix.

Definition hexDigit (c : ascii) : bool :=
  ((48 <=? code c) && (code c <=? 57))
  || ((65 <=? code c) && (code c <=? 70))
  || ((97 <=? code c) && (code c <=? 102)).

Fixpoint allHex (s : string) : bool :=
  match s with
  | EmptyString => true
  | String c r => hexDigit c && allHex r
  end.

(** [/^[0-9A-Fa-f]+$/.test(s)]. *)
Definition isHex (s : string) : bool :=
  match s with
  | EmptyString => false
  | String _ _ => allHex s
  end.

End Str.

(** ** Values, the record and the process *)

(** The values a parameter can hold: absent, the JSON scalars, strings and
    arrays. *)
#[warnings="-register-all"]
Inductive Val : Type :=
  | VUndef
  | VNull
  | VBool (b : bool)
  | VNum (n : number)
  | VStr (s : string)
  | VArr (l : list Val).

(** One line of the warning sink: every [warn]/[die] call site of the
    validators, with the values its message interpolates. *)
Inductive Diagnostic : Type :=
  | Blank
  | ProfileNotFound
  | ProfileNotJson (value : Val)
  | InvalidMode (value : Val)
  | InvalidInclude (value : Val)
  | InvalidQualityNumber
  | InvalidQualityLevel (value : Val)
  | UnknownFilter (value : Val)
  | InvalidPadding
  | InvalidPaddingNotNumbers
  | InvalidPaddingNotPositive
  | NoSourceIcon
  | IconPathMissing (value : Val)
  | IconNotPng
  | IconTooSmall
  | BackgroundPathMissing (value : Val)
  | BackgroundNotPng
  | BackgroundTooSmall
  | InvalidColor (name : string) (value : Val)
  | InvalidRatioNumber
  | InvalidRatioRange (value : Val)
  | InvalidAssets (value : Val)
  | OutputRequired
  | InvalidParameter (name : string).

(** The mutable world of one invocation: the record being validated and
    the lines sent to the warning sink so far. *)
Record State : Type := mkState {
  argv : gmap string Val;
  log : list Diagnostic
}.

(** How a computation ends: it returns, the process exits with a status
    code, or a [TypeError] escapes. *)
Inductive Outcome (A : Type) : Type :=
  | Returned (a : A) (st : State)
  | Exited (code : Z) (st : State)
  | Thrown (st : State).

Arguments Returned {A} a st.
Arguments Exited {A} code st.
Arguments Thrown {A} st.

Definition M (A : Type) : Type := State -> Outcome A.

Global Instance M_ret : MRet M := fun A a st => Returned a st.

Global Instance M_bind : MBind M := fun A B f m st =>
  match m st with
  | Returned a st' => f a st'
  | Exited code st' => Exited code st'
  | Thrown st' => Thrown st'
  end.

Definition state_of {A : Type} (o : Outcome A) : State :=
  match o with
  | Returned _ st => st
  | Exited _ st => st
  | Thrown st => st
  end.

Definition returned {A : Type} (o : Outcome A) : bool :=
  match o with Returned _ _ => true | _ => false end.

Definition exited {A : Type} (o : Outcome A) : bool :=
  match o with Exited _ _ => true | _ => false end.

(** [warn(msg)]. *)
Definition warn (d : Diagnostic) : M unit := fun st =>
  Returned tt (mkState (argv st) (log st ++ [d])).

(** [process.exit(code)]. *)
Definition exit {A : Type} (code : Z) : M A := fun st => Exited code st.

(** A [TypeError] nobody catches. *)
Definition throw {A : Type} : M A := fun st => Thrown st.

(** [argv[name]]. *)
Definition read (name : string) : M Val := fun st =>
  Returned (default VUndef (argv st !! name)) st.

(** [argv[name] = v]. *)
Definition assign (name : string) (v : Val) : M unit := fun st =>
  Returned tt (mkState (<[name := v]> (argv st)) (log st)).

Definition die {A : Type} (msg : Diagnostic) : M A :=
  warn msg ;; warn Blank ;; exit 1.

(** [if (c) { m }] as a statement. *)
Definition when (c : bool) (m : M unit) : M unit :=
  if c then m else mret tt.

(** [l.forEach(f)]. *)
Fixpoint forEach {A : Type} (f : A -> M unit) (l : list A) : M unit :=
  match l with
  | [] => mret tt
  | x :: r => f x ;; forEach f r
  end.

(** [!!v]. *)
Definition truthy (v : Val) : bool :=
  match v with
  | VUndef | VNull => false
  | VBool b => b
  | VNum n =>
      negb (Number.isNaN n || Number.strict_eq n (Number.of_Z 0))
  | VStr s => negb (String.eqb s "")
  | VArr _ => true
  end.

(** [v === 0]. *)
Definition is_zero (v : Val) : bool :=
  match v with
  | VNum n => Number.strict_eq n (Number.of_Z 0)
  | _ => false
  end.

(** [v.length]; [None] stands for [undefined]. The length of a string is
    counted in bytes, which is its length in code units whenever the
    string is made of hexadecimal digits: the only strings whose length
    the validators go on to use. *)
Definition length_of (v : Val) : option nat :=
  match v with
  | VStr s => Some (String.length s)
  | VArr l => Some (List.length l)
  | _ => None
  end.

(** [ToString(v)]; an array prints as its elements joined by commas, with
    [undefined] and [null] elements printing as nothing. *)
Fixpoint ToString (v : Val) : string :=
  match v with
  | VUndef => "undefined"
  | VNull => "null"
  | VBool b => if b then "true" else "false"
  | VNum n => Number.toString n
  | VStr s => s
  | VArr l =>
      let fix join (l : list Val) : string :=
        match l with
        | [] => ""
        | x :: r =>
            let e := match x with
                     | VUndef | VNull => ""
                     | _ => ToString x
                     end in
            match r with
            | [] => e
            | _ :: _ => e +:+ "," +:+ join r
            end
        end in
      join l
  end.

(** [parseInt(v, 10)] and [parseFloat(v)]. *)
Definition parseInt (v : Val) : number := Str.parseInt (ToString v).
Definition parseFloat (v : Val) : number := Str.parseFloat (ToString v).

(** ** The collaborators

    What the validators import: the two catalogs, the table of defaults, the
    paths of the installation, the file system, the PNG probe and the path
    helpers. *)
Class Host : Type := {
  modesList : list string;
  generatorNames : list string;
  defaultQuality : Val;
  defaultPngColor : Val;
  defaultSplashscreenColor : Val;
  defaultSvgColor : Val;
  defaultSplashscreenIconRatio : Val;
  appDir : string;
  cwd : string;
  sampleIcon : string;
  existsSync : string -> bool;
  isDirectory : string -> bool;
  getPngSize : string -> Z * Z;
  untildify : string -> string;
  resolve : string -> string -> string;
  isAbsolute : string -> bool
}.

(** ** The validators *)

Section Validators.

Context `{Host}.

(** [modesList] as the array stored in the record. *)
Definition modesArray : Val := VArr (VStr <$> modesList).

(** [modesList.includes(v)]. *)
Definition knownMode (v : Val) : bool :=
  match v with
  | VStr s => bool_decide (s ∈ modesList)
  | _ => false
  end.

(** [Object.keys(generators).includes(v)]. *)
Definition knownGenerator (v : Val) : bool :=
  match v with
  | VStr s => bool_decide (s ∈ generatorNames)
  | _ => false
  end.

(** [v.split(',')]: only strings have the method. *)
Definition splitCommas (v : Val) : M (list string) :=
  match v with
  | VStr s => mret (Str.split "," s)
  | _ => throw
  end.

(** [untildify(v)]: a [TypeError] unless [v] is a string. *)
Definition untildified (v : Val) : M string :=
  match v with
  | VStr s => mret (untildify s)
  | _ => throw
  end.

(** [existsSync(v)] and [getPngSize(v)] on a value read back from the
    record. *)
Definition exists_ (v : Val) : bool :=
  match v with
  | VStr p => existsSync p
  | _ => false
  end.

Definition pngSize (v : Val) : M (Z * Z) :=
  match v with
  | VStr p => mret (getPngSize p)
  | _ => throw
  end.

Definition profile (value : Val) : M unit :=
  if negb (truthy value) then mret tt
  else
    home ← untildified value;
    let profilePath := resolve cwd home in
    when (negb (existsSync profilePath)) (die ProfileNotFound) ;;
    when (negb (Str.endsWith ".json" (ToString value))
          && negb (isDirectory profilePath))
         (die (ProfileNotJson value)) ;;
    assign "profile" (VStr profilePath).

Definition mode (value : Val) : M unit :=
  if negb (truthy value) then assign "mode" modesArray
  else
    list ← splitCommas value;
    if bool_decide ("all" ∈ list) then assign "mode" modesArray
    else
      when (existsb (fun mode => negb (knownMode (VStr mode))) list)
           (die (InvalidMode value)) ;;
      assign "mode" (VArr (VStr <$> list)).

Definition include (value : Val) : M unit :=
  if negb (truthy value) then mret tt
  else
    hasAll ← match value with
             | VStr s => mret (Str.includes "all" s)
             | VArr l => mret (existsb (fun x => match x with
                                                  | VStr s => String.eqb s "all"
                                                  | _ => false
                                                  end) l)
             | _ => throw
             end;
    if (hasAll : bool) then assign "include" modesArray
    else
      match value with
      | VArr l =>
          when (existsb (fun mode => negb (knownMode mode)) l)
               (die (InvalidInclude value))
      | _ => throw
      end.

Definition quality (value : Val) : M unit :=
  if negb (truthy value) then assign "quality" defaultQuality
  else
    let numeric := parseInt value in
    when (Number.isNaN numeric) (die InvalidQualityNumber) ;;
    when (Number.lt numeric (Number.of_Z 1)
          || Number.gt numeric (Number.of_Z 12))
         (die (InvalidQualityLevel value)) ;;
    assign "quality" (VNum numeric).

Definition filter (value : Val) : M unit :=
  when (truthy value && negb (knownGenerator value))
       (die (UnknownFilter value)).

(** The callback [padding] runs on each parsed size. *)
Definition checkSize (size : number) : M unit :=
  when (Number.isNaN size) (die InvalidPaddingNotNumbers) ;;
  when (Number.lt size (Number.of_Z 0)) (die InvalidPaddingNotPositive).

Definition padding (value : Val) : M unit :=
  if negb (truthy value)
  then assign "padding" (VArr [VNum (Number.of_Z 0); VNum (Number.of_Z 0)])
  else
    parts ← match value with
            | VArr l => mret l
            | VStr s => mret (VStr <$> Str.split "," s)
            | _ => throw
            end;
    let sizes := parseInt <$> (parts : list Val) in
    when (2 <? List.length sizes)%nat (die InvalidPadding) ;;
    forEach checkSize sizes ;;
    assign "padding"
      (VArr (VNum <$> match sizes with
                      | [size] => [size; size]
                      | _ => sizes
                      end)).

Definition parseIconPath (value : Val) : M Val :=
  __path ← untildified value;
  if isAbsolute __path then
    mret (if existsSync __path then VStr __path else VNull)
  else
    let icon := resolve cwd __path in
    if existsSync icon then mret (VStr icon)
    else
      let icon := resolve appDir __path in
      mret (if existsSync icon then VStr icon else VNull).

Definition icon (value : Val) : M unit :=
  if negb (truthy value) then
    warn NoSourceIcon ;;
    assign "icon" (VStr sampleIcon)
  else
    path ← parseIconPath value;
    assign "icon" path ;;
    stored ← read "icon";
    when (negb (truthy stored)) (die (IconPathMissing value)) ;;
    stored ← read "icon";
    '(width, height) ← pngSize stored;
    when ((width =? 0) && (height =? 0)) (die IconNotPng) ;;
    when ((width <? 64) || (height <? 64)) (die IconTooSmall).

Definition background (value : Val) : M unit :=
  if negb (truthy value) then mret tt
  else
    home ← untildified value;
    assign "background" (VStr (resolve appDir home)) ;;
    stored ← read "background";
    when (negb (exists_ stored)) (die (BackgroundPathMissing value)) ;;
    stored ← read "background";
    '(width, height) ← pngSize stored;
    when ((width =? 0) && (height =? 0)) (die BackgroundNotPng) ;;
    when ((width <? 128) || (height <? 128)) (die BackgroundTooSmall).

Definition getColorParser (name : string) (defaultValue : Val)
    (value : Val) : M unit :=
  if negb (truthy value) then
    themeColor ← read "themeColor";
    assign name (if truthy themeColor then themeColor else defaultValue)
  else
    when ((negb (bool_decide (length_of value = Some 3%nat))
           && negb (bool_decide (length_of value = Some 6%nat)))
          || negb (Str.isHex (ToString value)))
         (die (InvalidColor name value)) ;;
    assign name (VStr ("#" +:+ ToString value)).

Definition splashscreenIconRatio (value : Val) : M unit :=
  if negb (truthy value) && negb (is_zero value)
  then assign "splashscreenIconRatio" defaultSplashscreenIconRatio
  else
    let numeric := parseFloat value in
    when (Number.isNaN numeric) (die InvalidRatioNumber) ;;
    when (Number.lt numeric (Number.of_Z 0)
          || Number.gt numeric (Number.of_Z 100))
         (die (InvalidRatioRange value)) ;;
    assign "splashscreenIconRatio" (VNum numeric).

Definition output (value : Val) : M unit :=
  when (negb (truthy value)) (die OutputRequired).

Definition assets (value : Val) : M unit :=
  if negb (truthy value) then assign "assets" (VArr [])
  else
    list ← splitCommas value;
    if bool_decide ("all" ∈ list) then assign "assets" modesArray
    else
      when (existsb (fun mode => negb (knownMode (VStr mode))) list)
           (die (InvalidAssets value)) ;;
      assign "assets" (VArr (VStr <$> list)).

(** The registry of validators, by parameter name: the own properties of
    the [parsers] object (the names every object inherits, such as
    [toString], are not parameter names and are left out). *)
Definition parsers : gmap string (Val -> M unit) :=
  list_to_map
    [ ("profile", profile);
      ("mode", mode);
      ("quality", quality);
      ("filter", filter);
      ("padding", padding);
      ("icon", icon);
      ("background", background);
      ("splashscreenIconRatio", splashscreenIconRatio);
      ("themeColor", getColorParser "themeColor" VUndef);
      ("pngColor", getColorParser "pngColor" defaultPngColor);
      ("splashscreenColor",
        getColorParser "splashscreenColor" defaultSplashscreenColor);
      ("svgColor", getColorParser "svgColor" defaultSvgColor);
      ("include", include);
      ("output", output);
      ("assets", assets) ].

(** [parseArgv(argv, list)]: the record is both where the raw values are
    read and where the normalized ones are written. *)
Definition parseArgv (list : list string) : M unit :=
  forEach (fun name =>
             match parsers !! name with
             | None => die (InvalidParameter name)
             | Some fn => value ← read name; fn value
             end)
          list.

End Validators.

(** ** A concrete installation

    A small host on which the validators can be run: three modes, two
    generators, a file system holding a 512x512 icon, a 32x32 icon, a text
    file and a 256x256 background. *)
Definition sampleHost : Host := {|
  modesList := ["spa"; "pwa"; "electron"];
  generatorNames := ["png"; "splashscreen"];
  defaultQuality := VNum (Number.of_Z 5);
  defaultPngColor := VStr "fff";
  defaultSplashscreenColor := VStr "fff";
  defaultSvgColor := VStr "1976D2";
  defaultSplashscreenIconRatio := VNum (Number.of_Z 40);
  appDir := "/app";
  cwd := "/work";
  sampleIcon := "/pkg/samples/icongenie-icon.png";
  existsSync := fun p =>
    bool_decide (p ∈ ["/work/icon.png"; "/work/small.png"; "/work/notes.txt";
                      "/app/bg.png"; "/work/profiles";
                      "/work/profile.json"]);
  isDirectory := fun p => String.eqb p "/work/profiles";
  getPngSize := fun p =>
    if String.eqb p "/work/icon.png" then (512, 512)
    else if String.eqb p "/work/small.png" then (32, 32)
    else if String.eqb p "/app/bg.png" then (256, 256)
    else (0, 0);
  untildify := fun p => p;
  resolve := fun base p =>
    if String.prefix "/" p then p else base +:+ "/" +:+ p;
  isAbsolute := fun p => String.prefix "/" p
|}.

(** A record holding the given entries, and nothing logged yet. *)
Definition initial (entries : list (string * Val)) : State :=
  mkState (list_to_map entries) [].

(** ** Expected results

    The two shapes a validator's result takes: the record with one entry
    written, and the fatal exit of [die]. *)
Definition store (name : string) (v : Val) (st : State) : State :=
  mkState (<[name := v]> (argv st)) (log st).

Definition fatal {A : Type} (msg : Diagnostic) (st : State) : Outcome A :=
  Exited 1 (mkState (argv st) ((log st ++ [msg]) ++ [Blank])).

(** A string in which no decimal digit occurs. *)
Fixpoint noDigit (s : string) : bool :=
  match s with
  | EmptyString => true
  | String c r =>
      match Str.digit c with
      | Some _ => false
      | None => noDigit r
      end
  end.

(** [lo <= x <= hi] on Numbers; false when [x] is NaN. *)
Definition between (lo hi : Z) (x : number) : bool :=
  Number.le (Number.of_Z lo) x && Number.le x (Number.of_Z hi).

(** What [padding] parses a non-empty input into: one Number per array
    element or per comma-separated piece. *)
Definition paddingSizes (value : Val) : option (list number) :=
  match value with
  | VArr l => Some (parseInt <$> l)
  | VStr s => Some (parseInt <$> (VStr <$> Str.split "," s))
  | _ => None
  end.

(** A padding size the validator lets through: a number that is not below
    zero. *)
Definition paddingSize (size : number) : bool :=
  negb (Number.isNaN size) && negb (Number.lt size (Number.of_Z 0)).

(** The four color fields of the registry, each with the default its
    validator was built with. *)
Definition colorFields `{Host} : list (string * Val) :=
  [ ("themeColor", VUndef);
    ("pngColor", defaultPngColor);
    ("splashscreenColor", defaultSplashscreenColor);
    ("svgColor", defaultSvgColor) ].

(** A string of exactly three or exactly six hexadecimal digits, in
    either case. *)
Definition hexColor (s : string) : bool :=
  (Nat.eqb (String.length s) 3 || Nat.eqb (String.length s) 6)
  && forallb Str.hexDigit (list_ascii_of_string s).

Definition isHexColor (v : Val) : bool :=
  match v with
  | VStr s => hexColor s
  | _ => false
  end.

(** The record's [themeColor] entry, as a validator reads it. *)
Definition themeColorOf (st : State) : Val :=
  default VUndef (argv st !! "themeColor").

(** A validator that leaves the record as it found it whenever it does
    not return (a fatal exit or an escaping error). *)
Definition validatesBeforeStoring (fn : Val -> M unit) : Prop :=
  forall (value : Val) (st : State),
    returned (fn value st) = false ->
    argv (state_of (fn value st)) = argv st.

(** A path that exists and whose PNG header announces at least
    [side] x [side] pixels. *)
Definition pngAtLeast `{Host} (side : Z) (path : string) : Prop :=
  existsSync path = true
  /\ ~ (fst (getPngSize path) = 0 /\ snd (getPngSize path) = 0)
  /\ side <= fst (getPngSize path)
  /\ side <= snd (getPngSize path).

(** The mantissa of the canonical representation of [p], for [p] below
    [2^53]. *)
Definition aligned (p : positive) : positive :=
  match (53 - Zpos (digits2_pos p))%Z with
  | Zpos k => Pos.iter xO p k
  | _ => p
  end.

(** The integer a string starts with, as [parseInt] reads it: leading
    white space, an optional sign, then as many decimal digits as there
    are; [None] when there is no digit there. *)
Definition leadingInteger (s : string) : option Z :=
  let '(neg, s1) := Str.sign (Str.trimStart s) in
  match fst (Str.digits s1) with
  | [] => None
  | ds => Some (cond_Zopp neg (Str.decimal_value ds))
  end.

(** ** What a validator does to a record

    The outcome of a validator as data that does not mention the record it
    runs on: it returns without writing, it writes one value under its own
    name (after the given warnings), it dies with a message (having
    written a value first, or not), or a [TypeError] escapes. *)
Inductive Effect : Type :=
  | Keeps
  | Writes (v : Val) (warned : list Diagnostic)
  | Fails (msg : Diagnostic) (written : option Val)
  | Raises.

Definition logged (lines warned : list Diagnostic) : list Diagnostic :=
  fold_left (fun acc d => (acc ++ [d])%list) warned lines.

Definition effect (name : string) (e : Effect) (st : State) : Outcome unit :=
  match e with
  | Keeps => Returned tt st
  | Writes v warned =>
      Returned tt (mkState (<[name := v]> (argv st)) (logged (log st) warned))
  | Fails msg written =>
      Exited 1
        (mkState
           match written with
           | Some v => <[name := v]> (argv st)
           | None => argv st
           end
           ((log st ++ [msg]) ++ [Blank]))
  | Raises => Thrown st
  end.

(** The value [parseArgv] hands to the validator of [name]. *)
Definition entry (name : string) (st : State) : Val :=
  default VUndef (argv st !! name).

(** The color fields that fall back on themeColor. *)
Definition dependentColors : list string :=
  ["pngColor"; "splashscreenColor"; "svgColor"].

(** The warnings and messages the validators produce: only [icon] warns
    before it writes, and of the sample icon; a fatal message is never the
    blank line. *)
Definition tidy (name : string) (e : Effect) : Prop :=
  match e with
  | Writes _ warned =>
      warned = [] \/ (name = "icon" /\ warned = [NoSourceIcon])
  | Fails msg _ => msg <> Blank
  | _ => True
  end.

(** The own properties of the [parsers] object. *)
Definition registeredNames : list string :=
  [ "profile"; "mode"; "quality"; "filter"; "padding"; "icon"; "background";
    "splashscreenIconRatio"; "themeColor"; "pngColor"; "splashscreenColor";
    "svgColor"; "include"; "output"; "assets" ].

(** One turn of the loop of [parseArgv]. *)
Definition validate `{Host} (name : string) : M unit :=
  match parsers !! name with
  | None => die (InvalidParameter name)
  | Some fn => value ← read name; fn value
  end.

(** A list of names in which themeColor is not asked for together with a
    color that falls back on it. *)
Definition unthemed (list : list string) : Prop :=
  "themeColor" ∈ list -> forall c, c ∈ dependentColors -> c ∉ list.

(** Whether an effect is one of a validator that returns. *)
Definition accepts (e : Effect) : bool :=
  match e with
  | Keeps | Writes _ _ => true
  | _ => false
  end.

(** The names [parsers] answers to without owning them: the properties
    every object inherits. They are not parameter names, and the registry
    above leaves them out. *)
Definition inheritedNames : list string :=
  [ "constructor"; "hasOwnProperty"; "isPrototypeOf"; "propertyIsEnumerable";
    "toLocaleString"; "toString"; "valueOf"; "__proto__";
    "__defineGetter__"; "__defineSetter__"; "__lookupGetter__";
    "__lookupSetter__" ].

(** * Properties *)

(** ** The monad *)

Lemma bind_returned {A B : Type} (m : M A) (f : A -> M B) (st st' : State) (a : A) :
  m st = Returned a st' -> (m ≫= f) st = f a st'.
Proof. intros E. unfold mbind, M_bind. now rewrite E. Qed.

Lemma die_fatal {A : Type} (msg : Diagnostic) (st : State) :
  die (A := A) msg st = fatal msg st.
Proof.
  reflexivity.
Qed.

Lemma assign_store (name : string) (v : Val) (st : State) :
  assign name v st = Returned tt (store name v st).
Proof. reflexivity. Qed.

Lemma when_true (m : M unit) : when true m = m.
Proof. reflexivity. Qed.

Lemma when_false_bind {B : Type} (m : M unit) (k : M B) (st : State) :
  (when false m ;; k) st = k st.
Proof. reflexivity. Qed.

Lemma when_true_die {B : Type} (msg : Diagnostic) (k : M B) (st : State) :
  (when true (die msg) ;; k) st = fatal msg st.
Proof.
  unfold when, mbind, M_bind. rewrite die_fatal. reflexivity.
Qed.

(** ** Comparisons of Numbers *)

Lemma SFcompare_antisym (x y : spec_float) :
  SFcompare y x = CompOpp <$> SFcompare x y.
Proof.
  destruct x as [sx|sx| |sx mx ex], y as [sy|sy| |sy my ey]; simpl;
    try reflexivity;
    try (destruct sx; reflexivity); try (destruct sy; reflexivity);
    try (destruct sx, sy; reflexivity).
  destruct sx, sy; simpl; try reflexivity;
    rewrite (Z.compare_antisym ey ex);
    destruct (ey ?= ex); simpl; try reflexivity;
    rewrite (Pos.compare_cont_antisym mx my Eq); simpl;
    now rewrite ?CompOpp_involutive.
Qed.

Lemma lt_negb_le (x y : number) :
  Number.isNaN x = false -> Number.isNaN y = false ->
  Number.lt x y = negb (Number.le y x).
Proof.
  intros Hx Hy. unfold Number.lt, Number.le, SFltb, SFleb.
  rewrite (SFcompare_antisym x y).
  destruct x, y; try discriminate; simpl;
    repeat match goal with
           | |- context [match ?c with _ => _ end] => destruct c; simpl
           end; reflexivity.
Qed.

Lemma out_of_range (lo hi x : number) :
  Number.isNaN lo = false -> Number.isNaN hi = false ->
  Number.isNaN x = false ->
  Number.lt x lo || Number.gt x hi = negb (Number.le lo x && Number.le x hi).
Proof.
  intros Hlo Hhi Hx. change (Number.gt x hi) with (Number.lt hi x).
  rewrite (lt_negb_le x lo), (lt_negb_le hi x) by assumption.
  now rewrite negb_andb.
Qed.

Lemma le_not_NaN_r (x y : number) : Number.le x y = true -> Number.isNaN y = false.
Proof. destruct x, y; simpl; try reflexivity; discriminate. Qed.

Lemma out_of_range_Z (lo hi : Z) (x : number) :
  Number.isNaN (Number.of_Z lo) = false ->
  Number.isNaN (Number.of_Z hi) = false ->
  Number.isNaN x = false ->
  Number.lt x (Number.of_Z lo) || Number.gt x (Number.of_Z hi)
  = negb (between lo hi x).
Proof. apply out_of_range. Qed.

Lemma between_not_NaN (lo hi : Z) (x : number) :
  between lo hi x = true -> Number.isNaN x = false.
Proof.
  unfold between. intros [Hlo _]%andb_prop. exact (le_not_NaN_r _ _ Hlo).
Qed.

(** ** Strings without digits *)

Lemma digits_noDigit (s : string) : noDigit s = true -> Str.digits s = ([], s).
Proof.
  destruct s as [|c r]; simpl; [reflexivity|].
  destruct (Str.digit c); [discriminate | reflexivity].
Qed.

Lemma noDigit_tail (c : ascii) (r : string) :
  noDigit (String c r) = true -> noDigit r = true.
Proof. simpl. destruct (Str.digit c); [discriminate | trivial]. Qed.

Lemma noDigit_trimStart (s : string) :
  noDigit s = true -> noDigit (Str.trimStart s) = true.
Proof.
  remember (String.length s) as n eqn:Hn.
  revert s Hn. induction n as [n IH] using lt_wf_ind. intros s Hn Hs.
  destruct s as [|a r]; [exact Hs|].
  simpl in Hn. cbn [Str.trimStart].
  destruct (Str.ws1 a).
  { apply (IH (String.length r)); [lia | reflexivity |].
    exact (noDigit_tail _ _ Hs). }
  destruct r as [|b r2]; [exact Hs|].
  destruct (Str.ws2 a b).
  { simpl in Hn. apply (IH (String.length r2)); [lia | reflexivity |].
    exact (noDigit_tail _ _ (noDigit_tail _ _ Hs)). }
  destruct r2 as [|c r3]; [exact Hs|].
  destruct (Str.ws3 a b c); [|exact Hs].
  simpl in Hn. apply (IH (String.length r3)); [lia | reflexivity |].
  exact (noDigit_tail _ _ (noDigit_tail _ _ (noDigit_tail _ _ Hs))).
Qed.

Lemma noDigit_sign (s : string) :
  noDigit s = true -> noDigit (snd (Str.sign s)) = true.
Proof.
  destruct s as [|c r]; [trivial|]. intros Hs. unfold Str.sign.
  pose proof (noDigit_tail _ _ Hs).
  destruct (Ascii.eqb c "-"); [assumption|].
  destruct (Ascii.eqb c "+"); assumption.
Qed.

Lemma parseInt_noDigit (s : string) :
  noDigit s = true -> Str.parseInt s = Number.NaN.
Proof.
  intros Hs. unfold Str.parseInt.
  pose proof (noDigit_sign _ (noDigit_trimStart _ Hs)) as Hd.
  destruct (Str.sign (Str.trimStart s)) as [neg s1]. simpl in Hd.
  now rewrite (digits_noDigit _ Hd).
Qed.


(** ** Integers as Numbers *)

Section Rounding.

Lemma digits2_pos_bounds (p : positive) :
  2 ^ (Zpos (digits2_pos p) - 1) <= Zpos p < 2 ^ Zpos (digits2_pos p).
Proof.
  induction p as [p IH|p IH|]; cbn [digits2_pos].
  - rewrite Pos2Z.inj_succ, Z.pow_succ_r by lia.
    replace (Z.succ (Zpos (digits2_pos p)) - 1)
      with (Z.succ (Zpos (digits2_pos p) - 1)) by lia.
    rewrite Z.pow_succ_r by lia. lia.
  - rewrite Pos2Z.inj_succ, Z.pow_succ_r by lia.
    replace (Z.succ (Zpos (digits2_pos p)) - 1)
      with (Z.succ (Zpos (digits2_pos p) - 1)) by lia.
    rewrite Z.pow_succ_r by lia. lia.
  - simpl. lia.
Qed.

Lemma iter_xO_value (p k : positive) :
  Zpos (Pos.iter xO p k) = Zpos p * 2 ^ Zpos k.
Proof.
  induction k as [|k IH] using Pos.peano_ind.
  - simpl. lia.
  - rewrite Pos.iter_succ, Pos2Z.inj_xO, IH, Pos2Z.inj_succ, Z.pow_succ_r by lia.
    lia.
Qed.

Lemma iter_xO_digits (p k : positive) :
  digits2_pos (Pos.iter xO p k) = (digits2_pos p + k)%positive.
Proof.
  induction k as [|k IH] using Pos.peano_ind.
  - simpl. lia.
  - rewrite Pos.iter_succ. cbn [digits2_pos]. rewrite IH. lia.
Qed.

Lemma aligned_digits (p : positive) :
  Zpos (digits2_pos p) <= 53 -> Zpos (digits2_pos (aligned p)) = 53.
Proof.
  intros L. unfold aligned.
  destruct (53 - Zpos (digits2_pos p)) as [|k|k] eqn:E; try lia.
  rewrite iter_xO_digits. lia.
Qed.

Lemma aligned_value (p : positive) :
  Zpos (digits2_pos p) <= 53 ->
  Zpos (aligned p) = Zpos p * 2 ^ (53 - Zpos (digits2_pos p)).
Proof.
  intros L. unfold aligned.
  destruct (53 - Zpos (digits2_pos p)) as [|k|k] eqn:E; try lia.
  apply iter_xO_value.
Qed.

Lemma binary_round_aux_exact (s : bool) (m : positive) (e : Z) :
  Zpos (digits2_pos m) = 53 -> -1074 <= e <= 971 ->
  binary_round_aux Number.prec Number.emax s (Zpos m) e loc_Exact
  = S754_finite s m e.
Proof.
  intros D E. unfold binary_round_aux, shr_fexp, SpecFloat.fexp, emin,
    Number.prec, Number.emax.
  cbn [Zdigits2 shr_record_of_loc]. rewrite D.
  replace (Z.max (53 + e - 53) (3 - 1024 - 53) - e) with 0 by lia.
  cbn [shr shr_m loc_of_shr_record round_nearest_even Zdigits2].
  rewrite D.
  replace (Z.max (53 + e - 53) (3 - 1024 - 53) - e) with 0 by lia.
  cbn [shr shr_m shr_record_of_loc].
  destruct (Z.leb_spec e (1024 - 53)); [reflexivity | lia].
Qed.

Lemma binary_round_small (s : bool) (p : positive) :
  Zpos (digits2_pos p) <= 53 ->
  binary_round Number.prec Number.emax s p 0
  = S754_finite s (aligned p) (Zpos (digits2_pos p) - 53).
Proof.
  intros L. pose proof (aligned_digits p L) as D.
  unfold SpecFloat.binary_round, shl_align, SpecFloat.fexp, emin,
    Number.prec, Number.emax.
  replace (Z.max (Zpos (digits2_pos p) + 0 - 53) (3 - 1024 - 53))
    with (Zpos (digits2_pos p) - 53) by lia.
  unfold aligned in *.
  destruct (53 - Zpos (digits2_pos p)) as [|k|k] eqn:E; try lia.
  - replace (Zpos (digits2_pos p) - 53) with 0 by lia. cbn [Z.sub Z.add Z.opp].
    apply binary_round_aux_exact; [exact D | lia].
  - replace (Zpos (digits2_pos p) - 53) with (Zneg k) by lia.
    cbn [Z.sub Z.add Z.opp].
    apply binary_round_aux_exact; [exact D | lia].
Qed.

Lemma shr_1_m (r : shr_record) :
  0 <= shr_m r -> shr_m (shr_1 r) = shr_m r / 2.
Proof.
  destruct r as [m b c]. cbn [shr_m]. intros Hm.
  destruct m as [|[q|q|]|q]; cbn [shr_1 shr_m]; try lia; try reflexivity.
  - apply (Z.div_unique (Zpos q~1) 2 (Zpos q) 1); [lia|reflexivity].
  - apply (Z.div_unique (Zpos q~0) 2 (Zpos q) 0); [lia|].
    rewrite Z.add_0_r. reflexivity.
Qed.

Lemma pow2_xO (n : positive) : 2 ^ Zpos n~0 = 2 ^ Zpos n * 2 ^ Zpos n.
Proof.
  replace (Zpos n~0) with (Zpos n + Zpos n) by lia. apply Z.pow_add_r; lia.
Qed.

Lemma pow2_xI (n : positive) : 2 ^ Zpos n~1 = 2 * (2 ^ Zpos n * 2 ^ Zpos n).
Proof.
  replace (Zpos n~1) with (Z.succ (Zpos n~0)) by lia.
  rewrite Z.pow_succ_r, pow2_xO by lia. reflexivity.
Qed.

Lemma iter_pos_shr_m (n : positive) (r : shr_record) :
  0 <= shr_m r -> shr_m (SpecFloat.iter_pos shr_1 n r) = shr_m r / 2 ^ Zpos n.
Proof.
  revert r. induction n as [n IH|n IH|]; intros r Hr;
    cbn [SpecFloat.iter_pos].
  - assert (H1 : 0 <= shr_m (shr_1 r))
      by (rewrite shr_1_m by assumption; apply Z.div_pos; lia).
    assert (H2 : 0 <= shr_m (SpecFloat.iter_pos shr_1 n (shr_1 r)))
      by (rewrite IH by assumption; apply Z.div_pos; lia).
    rewrite IH, IH, shr_1_m by assumption.
    rewrite !Z.div_div by lia. rewrite pow2_xI. f_equal.
  - assert (H2 : 0 <= shr_m (SpecFloat.iter_pos shr_1 n r))
      by (rewrite IH by assumption; apply Z.div_pos; lia).
    rewrite IH, IH by assumption.
    rewrite !Z.div_div by lia. now rewrite pow2_xO.
  - rewrite shr_1_m by assumption. reflexivity.
Qed.

Lemma round_nearest_even_bounds (m : Z) (l : location) :
  m <= round_nearest_even m l <= m + 1.
Proof.
  unfold round_nearest_even. destruct l as [|[| |]]; try lia.
  destruct (Z.even m); lia.
Qed.

Lemma digits_between (q : positive) (n : Z) :
  0 <= n -> 2 ^ n <= Zpos q < 2 ^ (n + 1) -> Zpos (digits2_pos q) = n + 1.
Proof.
  intros Hn [Lo Hi]. pose proof (digits2_pos_bounds q) as [Blo Bhi].
  assert (n < Zpos (digits2_pos q))
    by (apply (Z.pow_lt_mono_r_iff 2); lia).
  assert (Zpos (digits2_pos q) - 1 < n + 1)
    by (apply (Z.pow_lt_mono_r_iff 2); lia).
  lia.
Qed.

Lemma binary_round_large (s : bool) (p : positive) :
  53 < Zpos (digits2_pos p) ->
  binary_round Number.prec Number.emax s p 0 = S754_infinity s
  \/ exists m e,
       binary_round Number.prec Number.emax s p 0 = S754_finite s m e
       /\ 1 <= e.
Proof.
  intros L. pose proof (digits2_pos_bounds p) as [Blo Bhi].
  unfold SpecFloat.binary_round, shl_align, SpecFloat.fexp, emin,
    Number.prec, Number.emax.
  replace (Z.max (Zpos (digits2_pos p) + 0 - 53) (3 - 1024 - 53))
    with (Zpos (digits2_pos p) - 53) by lia.
  destruct (Zpos (digits2_pos p) - 53 - 0) as [|k|k] eqn:E; try lia.
  unfold binary_round_aux, shr_fexp, SpecFloat.fexp, emin.
  cbn [Zdigits2 shr_record_of_loc].
  replace (Z.max (Zpos (digits2_pos p) + 0 - 53) (3 - 1024 - 53) - 0)
    with (Zpos k) by lia.
  cbn [shr].
  set (mrs := SpecFloat.iter_pos shr_1 k
                {| shr_m := Zpos p; shr_r := false; shr_s := false |}).
  assert (M1 : shr_m mrs = Zpos p / 2 ^ Zpos k)
    by (apply iter_pos_shr_m; simpl; lia).
  assert (Hd : Zpos (digits2_pos p) = 53 + Zpos k) by lia.
  rewrite Hd in Blo, Bhi.
  replace (53 + Zpos k - 1) with (52 + Zpos k) in Blo by lia.
  rewrite Z.pow_add_r in Blo, Bhi by lia.
  assert (B1 : 2 ^ 52 <= shr_m mrs < 2 ^ 53).
  { rewrite M1. split.
    - apply Z.div_le_lower_bound; lia.
    - apply Z.div_lt_upper_bound; lia. }
  pose proof (round_nearest_even_bounds (shr_m mrs) (loc_of_shr_record mrs))
    as B2.
  destruct (round_nearest_even (shr_m mrs) (loc_of_shr_record mrs))
    as [|q|q] eqn:Eq; try lia.
  cbn [Zdigits2 shr_record_of_loc].
  destruct (Z.eq_dec (Zpos q) (2 ^ 53)) as [Top|Top].
  - assert (Dq : Zpos (digits2_pos q) = 54)
      by (apply (digits_between q 53); [lia|]; rewrite Top;
          change (53 + 1) with 54; change (2 ^ 53) with 9007199254740992;
          change (2 ^ 54) with 18014398509481984; lia).
    rewrite Dq.
    replace (Z.max (54 + (0 + Zpos k) - 53) (3 - 1024 - 53) - (0 + Zpos k))
      with 1 by lia.
    cbn [shr SpecFloat.iter_pos].
    change (2 ^ 53) with 9007199254740992 in Top. injection Top as ->.
    cbn [shr_1 shr_m].
    destruct (0 + Zpos k + 1 <=? 1024 - 53);
      [right; eexists; eexists; split; [reflexivity | lia]
      | left; reflexivity].
  - assert (Dq : Zpos (digits2_pos q) = 53)
      by (apply (digits_between q 52); lia).
    rewrite Dq.
    replace (Z.max (53 + (0 + Zpos k) - 53) (3 - 1024 - 53) - (0 + Zpos k))
      with 0 by lia.
    cbn [shr shr_m].
    destruct (0 + Zpos k <=? 1024 - 53);
      [right; eexists; eexists; split; [reflexivity | lia]
      | left; reflexivity].
Qed.

End Rounding.

Section IntegerOrder.

Lemma small_digits (p : positive) :
  Zpos p < 2 ^ 53 <-> Zpos (digits2_pos p) <= 53.
Proof.
  pose proof (digits2_pos_bounds p) as [Blo Bhi]. split; intros L.
  - assert (Zpos (digits2_pos p) - 1 < 53)
      by (apply (Z.pow_lt_mono_r_iff 2); lia).
    lia.
  - apply (Z.lt_le_trans _ _ _ Bhi). apply Z.pow_le_mono_r; lia.
Qed.

Lemma of_decimal_integer (neg : bool) (m : Z) :
  0 <= m ->
  Number.of_decimal neg m 0
  = match m with
    | Zpos p => binary_round Number.prec Number.emax neg p 0
    | _ => S754_zero neg
    end.
Proof.
  intros Hm. unfold Number.of_decimal. cbn [Z.leb Z.compare].
  rewrite Z.pow_0_r, Z.mul_1_r.
  destruct m as [|p|p]; [now destruct neg | now destruct neg | lia].
Qed.

(** Rounding a positive integer gives a finite Number or an infinity, of
    the same sign. *)
Lemma binary_round_shape (s : bool) (p : positive) :
  binary_round Number.prec Number.emax s p 0 = S754_infinity s
  \/ exists m e, binary_round Number.prec Number.emax s p 0 = S754_finite s m e.
Proof.
  destruct (Z.le_gt_cases (Zpos (digits2_pos p)) 53) as [L|L].
  - right. rewrite (binary_round_small s p L). eauto.
  - destruct (binary_round_large s p) as [E|(m & e & E & _)]; [lia|auto|eauto].
Qed.

Lemma compare_small (p q : positive) :
  Zpos (digits2_pos p) <= 53 -> Zpos (digits2_pos q) <= 53 ->
  SFcompare (binary_round Number.prec Number.emax false p 0)
            (binary_round Number.prec Number.emax false q 0)
  = Some (Zpos p ?= Zpos q).
Proof.
  intros Lp Lq. rewrite (binary_round_small false p Lp),
    (binary_round_small false q Lq).
  cbn [SFcompare]. f_equal.
  pose proof (digits2_pos_bounds p) as [Plo Phi].
  pose proof (digits2_pos_bounds q) as [Qlo Qhi].
  destruct (Z.compare_spec (Zpos (digits2_pos p) - 53)
              (Zpos (digits2_pos q) - 53)) as [E|E|E].
  - rewrite Pos.compare_cont_spec.
    replace (Pos.switch_Eq Eq (aligned p ?= aligned q)%positive)
      with (aligned p ?= aligned q)%positive
      by now destruct (aligned p ?= aligned q)%positive.
    change ((aligned p ?= aligned q)%positive)
      with (Zpos (aligned p) ?= Zpos (aligned q)).
    rewrite (aligned_value p Lp), (aligned_value q Lq).
    replace (Zpos (digits2_pos q)) with (Zpos (digits2_pos p)) by lia.
    symmetry. apply Zmult_compare_compat_r. apply Z.lt_gt.
    apply Z.pow_pos_nonneg; lia.
  - symmetry. apply Z.compare_lt_iff.
    assert (2 ^ Zpos (digits2_pos p) <= 2 ^ (Zpos (digits2_pos q) - 1))
      by (apply Z.pow_le_mono_r; lia).
    lia.
  - symmetry. apply Z.compare_gt_iff.
    assert (2 ^ Zpos (digits2_pos q) <= 2 ^ (Zpos (digits2_pos p) - 1))
      by (apply Z.pow_le_mono_r; lia).
    lia.
Qed.

Lemma compare_large_small (p q : positive) :
  53 < Zpos (digits2_pos p) -> Zpos (digits2_pos q) <= 53 ->
  SFcompare (binary_round Number.prec Number.emax false p 0)
            (binary_round Number.prec Number.emax false q 0) = Some Gt
  /\ SFcompare (binary_round Number.prec Number.emax false q 0)
               (binary_round Number.prec Number.emax false p 0) = Some Lt.
Proof.
  intros Lp Lq. rewrite (binary_round_small false q Lq).
  destruct (binary_round_large false p Lp) as [->|(m & e & -> & He)];
    cbn [SFcompare]; [split; reflexivity|].
  split.
  - destruct (Z.compare_spec e (Zpos (digits2_pos q) - 53)); [lia|lia|reflexivity].
  - destruct (Z.compare_spec (Zpos (digits2_pos q) - 53) e); [lia|reflexivity|lia].
Qed.

(** On non-negative integers of which one at least is below [2^53], the
    order of the Numbers is the order of the integers. *)
Lemma compare_integers (a b : Z) :
  0 <= a -> 0 <= b -> a < 2 ^ 53 \/ b < 2 ^ 53 ->
  SFcompare (Number.of_decimal false a 0) (Number.of_decimal false b 0)
  = Some (a ?= b).
Proof.
  intros Ha Hb Hs. rewrite !of_decimal_integer by assumption.
  destruct a as [|p|p], b as [|q|q]; try lia.
  - reflexivity.
  - destruct (binary_round_shape false q) as [->|(m & e & ->)]; reflexivity.
  - destruct (binary_round_shape false p) as [->|(m & e & ->)]; reflexivity.
  - destruct (Z.le_gt_cases (Zpos (digits2_pos p)) 53) as [Lp|Lp];
      destruct (Z.le_gt_cases (Zpos (digits2_pos q)) 53) as [Lq|Lq].
    + now apply compare_small.
    + destruct (compare_large_small q p) as [_ ->]; try lia.
      apply small_digits in Lp.
      assert (2 ^ 53 <= Zpos q)
        by (destruct (Z.lt_ge_cases (Zpos q) (2 ^ 53)) as [C|C];
            [apply small_digits in C; lia | exact C]).
      symmetry. f_equal. apply Z.compare_lt_iff. lia.
    + destruct (compare_large_small p q) as [-> _]; try lia.
      apply small_digits in Lq.
      assert (2 ^ 53 <= Zpos p)
        by (destruct (Z.lt_ge_cases (Zpos p) (2 ^ 53)) as [C|C];
            [apply small_digits in C; lia | exact C]).
      symmetry. f_equal. apply Z.compare_gt_iff. lia.
    + exfalso. destruct Hs as [C|C]; apply small_digits in C; lia.
Qed.

Lemma of_Z_nonneg (z : Z) : 0 <= z -> Number.of_Z z = Number.of_decimal false z 0.
Proof.
  intros Hz. unfold Number.of_Z.
  destruct (Z.ltb_spec z 0); [lia|]. now rewrite Z.abs_eq.
Qed.

Lemma between_integer (lo hi m : Z) :
  0 <= lo -> 0 <= hi < 2 ^ 53 -> 0 <= m ->
  between lo hi (Number.of_decimal false m 0) = (lo <=? m) && (m <=? hi).
Proof.
  intros Hlo Hhi Hm. unfold between, Number.le, SFleb.
  rewrite !of_Z_nonneg by lia.
  destruct (Z.leb_spec m hi) as [Le|Gt].
  - rewrite !compare_integers by lia.
    destruct (Z.compare_spec lo m), (Z.compare_spec m hi),
      (Z.leb_spec lo m); try lia; reflexivity.
  - rewrite (compare_integers m hi) by lia.
    destruct (Z.compare_spec m hi); lia.
Qed.

Lemma between_negative (lo hi m : Z) :
  1 <= lo < 2 ^ 53 -> 0 <= m ->
  between lo hi (Number.of_decimal true m 0) = false.
Proof.
  intros Hlo Hm. unfold between, Number.le, SFleb.
  rewrite of_Z_nonneg, !of_decimal_integer by lia.
  destruct lo as [|l|l]; try lia.
  assert (Ll : Zpos (digits2_pos l) <= 53) by (apply small_digits; lia).
  rewrite (binary_round_small false l Ll).
  destruct m as [|p|p]; try lia; [reflexivity|].
  destruct (binary_round_shape true p) as [->|(m & e & ->)]; reflexivity.
Qed.

Lemma lt_zero_integer (neg : bool) (m : Z) :
  0 <= m ->
  Number.lt (Number.of_decimal neg m 0) (Number.of_Z 0) = neg && (0 <? m).
Proof.
  intros Hm. unfold Number.lt, SFltb. rewrite of_decimal_integer by lia.
  destruct m as [|p|p]; try lia.
  - now destruct neg.
  - destruct (binary_round_shape neg p) as [->|(m & e & ->)];
      now destruct neg.
Qed.

Lemma isNaN_integer (neg : bool) (m : Z) :
  0 <= m -> Number.isNaN (Number.of_decimal neg m 0) = false.
Proof.
  intros Hm. rewrite of_decimal_integer by lia.
  destruct m as [|p|p]; try lia; [reflexivity|].
  destruct (binary_round_shape neg p) as [->|(m & e & ->)]; reflexivity.
Qed.

End IntegerOrder.

(** ** The integer a string starts with *)

Lemma digit_range (c : ascii) (d : Z) : Str.digit c = Some d -> 0 <= d <= 9.
Proof.
  unfold Str.digit.
  destruct ((48 <=? Str.code c) && (Str.code c <=? 57)) eqn:E; [|discriminate].
  intros [= <-]. lia.
Qed.

Lemma digits_range (s : string) :
  Forall (fun d => 0 <= d <= 9) (fst (Str.digits s)).
Proof.
  induction s as [|c r IH]; cbn [Str.digits]; [constructor|].
  destruct (Str.digit c) as [d|] eqn:E; [|constructor].
  destruct (Str.digits r) as [ds rest]. cbn [fst] in *.
  constructor; [exact (digit_range c d E) | exact IH].
Qed.

Lemma decimal_value_nonneg (ds : list Z) :
  Forall (fun d => 0 <= d <= 9) ds -> 0 <= Str.decimal_value ds.
Proof.
  unfold Str.decimal_value. intros Hd.
  assert (G : forall acc, 0 <= acc ->
                0 <= fold_left (fun acc d => 10 * acc + d) ds acc).
  { induction Hd as [|d r Hd Hr IH]; intros acc Hacc; cbn [fold_left];
      [exact Hacc | apply IH; lia]. }
  apply G. lia.
Qed.

(** What [parseInt] makes of the integer the string starts with. *)
Lemma parseInt_leadingInteger (s : string) :
  match leadingInteger s with
  | None => Str.parseInt s = Number.NaN
  | Some n =>
      exists neg m, 0 <= m /\ n = cond_Zopp neg m
        /\ Str.parseInt s = Number.of_decimal neg m 0
  end.
Proof.
  unfold leadingInteger, Str.parseInt.
  destruct (Str.sign (Str.trimStart s)) as [neg s1].
  pose proof (digits_range s1) as R.
  destruct (Str.digits s1) as [ds rest]. cbn [fst] in *.
  destruct ds as [|d r]; [reflexivity|].
  exists neg, (Str.decimal_value (d :: r)).
  split; [now apply decimal_value_nonneg | split; reflexivity].
Qed.

Lemma between_NaN (lo hi : Z) : between lo hi Number.NaN = false.
Proof.
  destruct (between lo hi Number.NaN) eqn:B; [|reflexivity].
  apply between_not_NaN in B. discriminate.
Qed.

Lemma between_leadingInteger (lo hi : Z) (s : string) :
  1 <= lo -> lo <= hi < 2 ^ 53 ->
  between lo hi (Str.parseInt s)
  = match leadingInteger s with
    | Some n => (lo <=? n) && (n <=? hi)
    | None => false
    end.
Proof.
  intros Hlo Hhi. pose proof (parseInt_leadingInteger s) as P.
  destruct (leadingInteger s) as [n|]; [|rewrite P; apply between_NaN].
  destruct P as (neg & m & Hm & -> & ->). destruct neg; cbn [cond_Zopp].
  - rewrite between_negative by lia. lia.
  - apply between_integer; lia.
Qed.

Lemma paddingSize_leadingInteger (s : string) :
  paddingSize (Str.parseInt s)
  = match leadingInteger s with
    | Some n => 0 <=? n
    | None => false
    end.
Proof.
  pose proof (parseInt_leadingInteger s) as P. unfold paddingSize.
  destruct (leadingInteger s) as [n|]; [|now rewrite P].
  destruct P as (neg & m & Hm & -> & ->).
  rewrite isNaN_integer, lt_zero_integer by assumption.
  destruct neg; cbn [cond_Zopp negb andb]; lia.
Qed.

Lemma parseInt_in_range (lo hi n : Z) (s : string) :
  leadingInteger s = Some n -> 1 <= lo <= n ->
  Str.parseInt s = Number.of_Z n.
Proof.
  intros E Hn. pose proof (parseInt_leadingInteger s) as P. rewrite E in P.
  destruct P as (neg & m & Hm & -> & ->).
  destruct neg; cbn [cond_Zopp] in *; [lia|].
  now rewrite of_Z_nonneg by lia.
Qed.
(** ** quality *)

Section Quality.

Context `{Host}.

Lemma quality_empty (value : Val) (st : State) :
  truthy value = false ->
  quality value st = Returned tt (store "quality" defaultQuality st).
Proof. intros E. unfold quality. now rewrite E. Qed.

Lemma quality_NaN (value : Val) (st : State) :
  truthy value = true ->
  Number.isNaN (parseInt value) = true ->
  quality value st = fatal InvalidQualityNumber st.
Proof.
  intros E N. unfold quality. rewrite E, N. cbn [negb].
  apply when_true_die.
Qed.

Lemma quality_outside (value : Val) (st : State) :
  truthy value = true ->
  Number.isNaN (parseInt value) = false ->
  between 1 12 (parseInt value) = false ->
  quality value st = fatal (InvalidQualityLevel value) st.
Proof.
  intros E N B. unfold quality. rewrite E, N. cbn [negb].
  rewrite when_false_bind.
  rewrite out_of_range_Z, B by (reflexivity || assumption).
  apply when_true_die.
Qed.

Lemma quality_inside (value : Val) (st : State) :
  truthy value = true ->
  between 1 12 (parseInt value) = true ->
  quality value st = Returned tt (store "quality" (VNum (parseInt value)) st).
Proof.
  intros E B. pose proof (between_not_NaN _ _ _ B) as N.
  unfold quality. rewrite E, N. cbn [negb].
  rewrite when_false_bind.
  rewrite out_of_range_Z, B by (reflexivity || assumption).
  reflexivity.
Qed.

Lemma quality_integer (value : Val) (st : State) :
  truthy value = true ->
  quality value st
  = match leadingInteger (ToString value) with
    | None => fatal InvalidQualityNumber st
    | Some n =>
        if (1 <=? n) && (n <=? 12)
        then Returned tt (store "quality" (VNum (Number.of_Z n)) st)
        else fatal (InvalidQualityLevel value) st
    end.
Proof.
  intros T.
  pose proof (between_leadingInteger 1 12 (ToString value)
                ltac:(lia) ltac:(split; [lia | reflexivity])) as B.
  pose proof (parseInt_leadingInteger (ToString value)) as P.
  fold (parseInt value) in B, P.
  destruct (leadingInteger (ToString value)) as [n|] eqn:E.
  - destruct ((1 <=? n) && (n <=? 12)) eqn:R.
    + rewrite (quality_inside value st T B). unfold parseInt.
      rewrite (parseInt_in_range 1 12 n _ E) by lia. reflexivity.
    + apply quality_outside; try assumption.
      destruct P as (neg & m & Hm & _ & ->). now apply isNaN_integer.
  - apply quality_NaN; [assumption | now rewrite P].
Qed.

End Quality.

(** C5. quality: an empty input stores the default quality; any other
    input is parsed as an integer and is fatal when the parse is not a
    number or falls outside 1..12, and is stored as that integer otherwise.
    In terms of the integer the input starts with: no integer there is
    fatal, an integer from 1 to 12 is stored as that integer, any other
    integer is fatal. In particular "0", "13" and every string without a
    digit are rejected, and "1" and "12" are stored as the integers 1 and
    12. *)
Theorem quality_spec `{Host} (value : Val) (st : State) :
  (truthy value = false ->
     quality value st = Returned tt (store "quality" defaultQuality st))
  /\ (truthy value = true ->
      let numeric := parseInt value in
      (Number.isNaN numeric = true ->
         quality value st = fatal InvalidQualityNumber st)
      /\ (Number.isNaN numeric = false -> between 1 12 numeric = false ->
            quality value st = fatal (InvalidQualityLevel value) st)
      /\ (between 1 12 numeric = true ->
            quality value st
            = Returned tt (store "quality" (VNum numeric) st)))
  /\ (truthy value = true ->
      quality value st
      = match leadingInteger (ToString value) with
        | None => fatal InvalidQualityNumber st
        | Some n =>
            if (1 <=? n) && (n <=? 12)
            then Returned tt (store "quality" (VNum (Number.of_Z n)) st)
            else fatal (InvalidQualityLevel value) st
        end)
  /\ (forall s : string, s <> "" -> noDigit s = true ->
        quality (VStr s) st = fatal InvalidQualityNumber st)
  /\ quality (VStr "0") st = fatal (InvalidQualityLevel (VStr "0")) st
  /\ quality (VStr "13") st = fatal (InvalidQualityLevel (VStr "13")) st
  /\ quality (VStr "abc") st = fatal InvalidQualityNumber st
  /\ quality (VStr "1") st
     = Returned tt (store "quality" (VNum (Number.of_Z 1)) st)
  /\ quality (VStr "12") st
     = Returned tt (store "quality" (VNum (Number.of_Z 12)) st).
Proof.
  split; [apply quality_empty|].
  split.
  { intros E numeric. subst numeric. split; [|split].
    - now apply quality_NaN.
    - now apply quality_outside.
    - now apply quality_inside. }
  split; [apply quality_integer|].
  split.
  { intros s Hs Hd. apply quality_NaN.
    - simpl. destruct s; [contradiction | reflexivity].
    - unfold parseInt. simpl ToString. now rewrite parseInt_noDigit. }
  repeat apply conj.
  - now apply quality_outside.
  - now apply quality_outside.
  - now apply quality_NaN.
  - now apply (quality_inside (VStr "1")).
  - now apply (quality_inside (VStr "12")).
Qed.

(** The quality properties on the sample installation. *)
Lemma quality_spec_witness :
  @quality sampleHost (VStr "7") (initial [])
  = Returned tt (store "quality" (VNum (Number.of_Z 7)) (initial []))
  /\ @quality sampleHost (VStr "x") (initial [])
     = fatal InvalidQualityNumber (initial [])
  /\ @quality sampleHost VUndef (initial [])
     = Returned tt (store "quality" (VNum (Number.of_Z 5)) (initial [])).
Proof.
  pose proof (@quality_spec sampleHost (VStr "7") (initial []))
    as (_ & P & _ & N & _).
  pose proof (@quality_spec sampleHost VUndef (initial [])) as (D & _).
  split; [|split].
  - destruct (P eq_refl) as (_ & _ & I). apply I. reflexivity.
  - apply N; [discriminate | reflexivity].
  - apply D. reflexivity.
Defined.

(** ** padding *)

Section Padding.

Lemma check_paddingSize (size : number) (st : State) :
  paddingSize size = true -> checkSize size st = Returned tt st.
Proof.
  unfold paddingSize, checkSize.
  intros [N L]%andb_prop. apply negb_true_iff in N, L. now rewrite N, L.
Qed.

Lemma check_not_paddingSize (size : number) (st : State) :
  paddingSize size = false ->
  exists msg, checkSize size st = fatal msg st.
Proof.
  unfold paddingSize, checkSize. intros E.
  destruct (Number.isNaN size) eqn:N.
  - exists InvalidPaddingNotNumbers. apply when_true_die.
  - destruct (Number.lt size (Number.of_Z 0)) eqn:L; [|discriminate].
    exists InvalidPaddingNotPositive. rewrite when_false_bind.
    unfold when. apply die_fatal.
Qed.

Lemma forEach_check_ok (sizes : list number) (st : State) :
  forallb paddingSize sizes = true ->
  forEach checkSize sizes st = Returned tt st.
Proof.
  induction sizes as [|x r IH]; intros E; [reflexivity|].
  simpl in E. apply andb_prop in E as [Ex Er].
  cbn [forEach]. rewrite (bind_returned _ _ _ _ _ (check_paddingSize x st Ex)).
  now apply IH.
Qed.

Lemma forEach_check_bad (sizes : list number) (st : State) :
  forallb paddingSize sizes = false ->
  exists msg, forEach checkSize sizes st = fatal msg st.
Proof.
  induction sizes as [|x r IH]; intros E; [discriminate|].
  simpl in E. cbn [forEach].
  destruct (paddingSize x) eqn:Ex.
  - rewrite (bind_returned _ _ _ _ _ (check_paddingSize x st Ex)).
    now apply IH.
  - destruct (check_not_paddingSize x st Ex) as [msg Hm].
    exists msg. unfold mbind, M_bind. now rewrite Hm.
Qed.

Lemma padding_empty (value : Val) (st : State) :
  truthy value = false ->
  padding value st
  = Returned tt (store "padding"
                   (VArr [VNum (Number.of_Z 0); VNum (Number.of_Z 0)]) st).
Proof. intros E. unfold padding. now rewrite E. Qed.

Lemma padding_unfold (value : Val) (sizes : list number) (st : State) :
  truthy value = true ->
  paddingSizes value = Some sizes ->
  padding value st
  = (when (2 <? List.length sizes)%nat (die InvalidPadding) ;;
     forEach checkSize sizes ;;
     assign "padding"
       (VArr (VNum <$> match sizes with
                       | [size] => [size; size]
                       | _ => sizes
                       end))) st.
Proof.
  intros E P. unfold padding. rewrite E. cbn [negb].
  destruct value; try discriminate; injection P as <-; reflexivity.
Qed.

Lemma padding_too_many (value : Val) (sizes : list number) (st : State) :
  truthy value = true ->
  paddingSizes value = Some sizes ->
  (2 < List.length sizes)%nat ->
  padding value st = fatal InvalidPadding st.
Proof.
  intros E P L. rewrite (padding_unfold _ _ _ E P).
  apply Nat.ltb_lt in L. rewrite L. apply when_true_die.
Qed.

Lemma padding_rejected (value : Val) (sizes : list number) (st : State) :
  truthy value = true ->
  paddingSizes value = Some sizes ->
  (List.length sizes <= 2)%nat ->
  forallb paddingSize sizes = false ->
  exists msg, padding value st = fatal msg st.
Proof.
  intros E P L B. rewrite (padding_unfold _ _ _ E P).
  apply Nat.ltb_ge in L. rewrite L, when_false_bind.
  destruct (forEach_check_bad sizes st B) as [msg Hm].
  exists msg. unfold mbind, M_bind. now rewrite Hm.
Qed.

Lemma padding_accepted (value : Val) (sizes : list number) (st : State) :
  truthy value = true ->
  paddingSizes value = Some sizes ->
  (List.length sizes <= 2)%nat ->
  forallb paddingSize sizes = true ->
  padding value st
  = Returned tt (store "padding"
                   (VArr (VNum <$> match sizes with
                                   | [size] => [size; size]
                                   | _ => sizes
                                   end)) st).
Proof.
  intros E P L B. rewrite (padding_unfold _ _ _ E P).
  apply Nat.ltb_ge in L. rewrite L, when_false_bind.
  now rewrite (bind_returned _ _ _ _ _ (forEach_check_ok sizes st B)).
Qed.

Lemma padding_no_method (value : Val) (st : State) :
  truthy value = true ->
  paddingSizes value = None ->
  padding value st = Thrown st.
Proof.
  intros E P. unfold padding. rewrite E. cbn [negb].
  destruct value; try discriminate; reflexivity.
Qed.

End Padding.

(** C6. padding: an empty input stores [0,0]; an array, or a string split
    at its commas, is parsed entry by entry as integers; more than two
    entries, an entry that is not a number or a negative entry is fatal;
    one entry is stored on both axes and two entries are stored in order.
    An entry passes exactly when it starts with an integer that is not
    below zero. So "5" gives [5,5], "5,10" gives [5,10], and "5,10,15" and
    "-1,2" are fatal. *)
Theorem padding_spec (value : Val) (st : State) :
  (truthy value = false ->
     padding value st
     = Returned tt (store "padding"
                      (VArr [VNum (Number.of_Z 0); VNum (Number.of_Z 0)]) st))
  /\ (forall sizes : list number,
        truthy value = true -> paddingSizes value = Some sizes ->
        ((2 < List.length sizes)%nat ->
           padding value st = fatal InvalidPadding st)
        /\ ((List.length sizes <= 2)%nat ->
            forallb paddingSize sizes = false ->
            exists msg, padding value st = fatal msg st)
        /\ (forall x, sizes = [x] -> paddingSize x = true ->
              padding value st
              = Returned tt (store "padding" (VArr [VNum x; VNum x]) st))
        /\ (forall x y, sizes = [x; y] ->
              paddingSize x = true -> paddingSize y = true ->
              padding value st
              = Returned tt (store "padding" (VArr [VNum x; VNum y]) st)))
  /\ (forall v : Val,
        paddingSize (parseInt v)
        = match leadingInteger (ToString v) with
          | Some n => 0 <=? n
          | None => false
          end)
  /\ padding (VStr "5") st
     = Returned tt (store "padding"
                      (VArr [VNum (Number.of_Z 5); VNum (Number.of_Z 5)]) st)
  /\ padding (VStr "5,10") st
     = Returned tt (store "padding"
                      (VArr [VNum (Number.of_Z 5); VNum (Number.of_Z 10)]) st)
  /\ padding (VArr [VStr "5"; VStr "10"]) st
     = Returned tt (store "padding"
                      (VArr [VNum (Number.of_Z 5); VNum (Number.of_Z 10)]) st)
  /\ padding (VArr [VNum (Number.of_Z 5); VNum (Number.of_Z 10)]) st
     = Returned tt (store "padding"
                      (VArr [VNum (Number.of_Z 5); VNum (Number.of_Z 10)]) st)
  /\ padding (VStr "5,10,15") st = fatal InvalidPadding st
  /\ padding (VStr "-1,2") st = fatal InvalidPaddingNotPositive st
  /\ padding (VStr "5,x") st = fatal InvalidPaddingNotNumbers st.
Proof.
  split; [apply padding_empty|].
  split.
  { intros sizes E P. repeat apply conj.
    - now apply padding_too_many.
    - now apply padding_rejected.
    - intros x -> Hx.
      rewrite (padding_accepted value [x] st E P); [reflexivity | simpl; lia |].
      simpl. now rewrite Hx.
    - intros x y -> Hx Hy.
      rewrite (padding_accepted value [x; y] st E P);
        [reflexivity | simpl; lia |].
      simpl. now rewrite Hx, Hy. }
  split; [intros v; apply paddingSize_leadingInteger|].
  repeat apply conj.
  - apply (padding_accepted (VStr "5") [Number.of_Z 5] st);
      [reflexivity | reflexivity | simpl; lia | reflexivity].
  - apply (padding_accepted (VStr "5,10") [Number.of_Z 5; Number.of_Z 10] st);
      [reflexivity | reflexivity | simpl; lia | reflexivity].
  - apply (padding_accepted (VArr [VStr "5"; VStr "10"])
             [Number.of_Z 5; Number.of_Z 10] st);
      [reflexivity | reflexivity | simpl; lia | reflexivity].
  - apply (padding_accepted (VArr [VNum (Number.of_Z 5); VNum (Number.of_Z 10)])
             [Number.of_Z 5; Number.of_Z 10] st);
      [reflexivity | reflexivity | simpl; lia | reflexivity].
  - apply (padding_too_many (VStr "5,10,15") _ st eq_refl eq_refl).
    simpl. lia.
  - rewrite (padding_unfold (VStr "-1,2") _ st eq_refl eq_refl).
    reflexivity.
  - rewrite (padding_unfold (VStr "5,x") _ st eq_refl eq_refl).
    reflexivity.
Qed.

(** The padding properties on the sample installation. *)
Lemma padding_spec_witness :
  padding (VStr "10") (initial [])
  = Returned tt (store "padding"
                   (VArr [VNum (Number.of_Z 10); VNum (Number.of_Z 10)])
                   (initial []))
  /\ padding (VStr "1,2,3") (initial [])
     = fatal InvalidPadding (initial [])
  /\ padding (VStr "") (initial [])
     = Returned tt (store "padding"
                      (VArr [VNum (Number.of_Z 0); VNum (Number.of_Z 0)])
                      (initial [])).
Proof.
  pose proof (padding_spec (VStr "10") (initial [])) as (_ & P & _).
  pose proof (padding_spec (VStr "1,2,3") (initial [])) as (_ & Q & _).
  pose proof (padding_spec (VStr "") (initial [])) as (D & _).
  split; [|split].
  - destruct (P _ eq_refl eq_refl) as (_ & _ & One & _).
    apply (One _ eq_refl). reflexivity.
  - destruct (Q _ eq_refl eq_refl) as (Many & _). apply Many. simpl. lia.
  - apply D. reflexivity.
Defined.

(** ** The color fields *)

Lemma allHex_forallb (s : string) :
  Str.allHex s = forallb Str.hexDigit (list_ascii_of_string s).
Proof. induction s as [|c r IH]; simpl; [reflexivity | now rewrite IH]. Qed.

Lemma allHex_append (a b : string) :
  Str.allHex (a +:+ b) = Str.allHex a && Str.allHex b.
Proof.
  induction a as [|c r IH]; simpl; [reflexivity|].
  now rewrite IH, andb_assoc.
Qed.

Lemma isHex_allHex (s : string) : Str.allHex s = false -> Str.isHex s = false.
Proof. destruct s; simpl; [discriminate | trivial]. Qed.

Lemma hexColor_checks (s : string) :
  hexColor s
  = negb ((negb (bool_decide (Some (String.length s) = Some 3%nat))
           && negb (bool_decide (Some (String.length s) = Some 6%nat)))
          || negb (Str.isHex s)).
Proof.
  unfold hexColor. rewrite <- allHex_forallb.
  destruct (Nat.eqb_spec (String.length s) 3) as [E3|E3];
    destruct (Nat.eqb_spec (String.length s) 6) as [E6|E6];
    repeat case_bool_decide; simplify_eq; try congruence; simpl;
    try reflexivity;
    destruct s; simpl in *; try discriminate; now rewrite negb_involutive.
Qed.

Section Colors.

Context `{Host}.

(** Two or more elements print with a comma between them. *)
Lemma isHex_array (x y : Val) (r : list Val) :
  Str.isHex (ToString (VArr (x :: y :: r))) = false.
Proof.
  apply isHex_allHex. cbn [ToString].
  rewrite allHex_append, allHex_append.
  cbn [Str.allHex]. change (Str.hexDigit ",") with false.
  now rewrite andb_false_r.
Qed.

Lemma color_empty (name : string) (defaultValue value : Val) (st : State) :
  truthy value = false ->
  getColorParser name defaultValue value st
  = Returned tt (store name (if truthy (themeColorOf st)
                             then themeColorOf st else defaultValue) st).
Proof. intros E. unfold getColorParser. now rewrite E. Qed.

Lemma color_accepted (name : string) (defaultValue : Val) (s : string)
    (st : State) :
  hexColor s = true ->
  getColorParser name defaultValue (VStr s) st
  = Returned tt (store name (VStr ("#" +:+ s)) st).
Proof.
  intros E. unfold getColorParser.
  assert (T : truthy (VStr s) = true)
    by (destruct s; [discriminate | reflexivity]).
  rewrite T. cbn [negb length_of ToString].
  rewrite hexColor_checks in E. apply negb_true_iff in E. now rewrite E.
Qed.

Lemma color_rejected (name : string) (defaultValue value : Val) (st : State) :
  truthy value = true ->
  isHexColor value = false ->
  getColorParser name defaultValue value st
  = fatal (InvalidColor name value) st.
Proof.
  intros T E. unfold getColorParser. rewrite T. cbn [negb].
  destruct value as [| |b|n|s|l]; try discriminate;
    try (apply when_true_die).
  - simpl in E. rewrite hexColor_checks in E. apply negb_false_iff in E.
    cbn [length_of ToString]. rewrite E. apply when_true_die.
  - destruct l as [|x [|y r]]; try (apply when_true_die).
    rewrite isHex_array. cbn [negb]. rewrite orb_true_r.
    apply when_true_die.
Qed.

Lemma hash_not_hexColor (s : string) : hexColor ("#" +:+ s) = false.
Proof. unfold hexColor. simpl. now rewrite andb_false_r. Qed.

Lemma parsers_color (name : string) (d : Val) :
  (name, d) ∈ colorFields ->
  parsers !! name = Some (getColorParser name d).
Proof.
  unfold colorFields. intros Hin.
  repeat (apply elem_of_cons in Hin as [Hin|Hin];
          [injection Hin as -> ->; reflexivity|]).
  now apply elem_of_nil in Hin.
Qed.

Lemma parseArgv_single (name : string) (fn : Val -> M unit) (st : State) :
  parsers !! name = Some fn ->
  returned (fn (default VUndef (argv st !! name)) st) = true ->
  parseArgv [name] st = fn (default VUndef (argv st !! name)) st.
Proof.
  intros P R. unfold parseArgv. cbn [forEach]. rewrite P.
  unfold mbind, M_bind, read.
  destruct (fn (default VUndef (argv st !! name)) st) as [[] st'| |];
    try discriminate; reflexivity.
Qed.

Lemma parseArgv_single_fatal (name : string) (fn : Val -> M unit)
    (msg : Diagnostic) (st : State) :
  parsers !! name = Some fn ->
  fn (default VUndef (argv st !! name)) st = fatal msg st ->
  parseArgv [name] st = fatal msg st.
Proof.
  intros P R. unfold parseArgv. cbn [forEach]. rewrite P.
  unfold mbind, M_bind, read. now rewrite R.
Qed.

Lemma parseArgv_cons (name : string) (fn : Val -> M unit)
    (rest : list string) (st st' : State) :
  parsers !! name = Some fn ->
  fn (default VUndef (argv st !! name)) st = Returned tt st' ->
  parseArgv (name :: rest) st = parseArgv rest st'.
Proof.
  intros P R. unfold parseArgv. cbn [forEach]. rewrite P.
  unfold mbind, M_bind, read. now rewrite R.
Qed.

Lemma truthy_hexColor (v : string) : hexColor v = true -> truthy (VStr v) = true.
Proof. destruct v; [discriminate | reflexivity]. Qed.

(** themeColor first, then a color field left empty. *)
Lemma themeColor_then (name : string) (d : Val) (st : State) :
  (name, d) ∈ colorFields -> name <> "themeColor" ->
  truthy (default VUndef (argv st !! name)) = false ->
  (forall v, argv st !! "themeColor" = Some (VStr v) -> hexColor v = true ->
     parseArgv ["themeColor"; name] st
     = Returned tt (store name (VStr ("#" +:+ v))
                      (store "themeColor" (VStr ("#" +:+ v)) st)))
  /\ (truthy (themeColorOf st) = false ->
        parseArgv ["themeColor"; name] st
        = Returned tt (store name d (store "themeColor" VUndef st))).
Proof.
  intros Hin Hne E. pose proof (parsers_color name d Hin) as P.
  assert (PT : parsers !! "themeColor"
               = Some (getColorParser "themeColor" VUndef)) by reflexivity.
  split.
  - intros v Hv Hhex.
    rewrite (parseArgv_cons "themeColor" _ [name] st
               (store "themeColor" (VStr ("#" +:+ v)) st) PT)
      by (rewrite Hv; now apply color_accepted).
    rewrite (parseArgv_single name _ _ P);
      unfold store at 1 2; cbn [argv]; rewrite lookup_insert_ne by congruence;
      rewrite (color_empty name d _ _ E); unfold themeColorOf; cbn [argv];
      rewrite lookup_insert_eq; reflexivity.
  - intros T.
    rewrite (parseArgv_cons "themeColor" _ [name] st
               (store "themeColor" VUndef st) PT)
      by (change (default VUndef (argv st !! "themeColor"))
            with (themeColorOf st);
          rewrite (color_empty "themeColor" VUndef _ st T); now rewrite T).
    rewrite (parseArgv_single name _ _ P);
      unfold store at 1 2; cbn [argv]; rewrite lookup_insert_ne by congruence;
      rewrite (color_empty name d _ _ E); unfold themeColorOf; cbn [argv];
      rewrite lookup_insert_eq; reflexivity.
Qed.

(** A color field left empty first, then themeColor. *)
Lemma then_themeColor (name : string) (d : Val) (v : string) (st : State) :
  (name, d) ∈ colorFields -> name <> "themeColor" ->
  truthy (default VUndef (argv st !! name)) = false ->
  argv st !! "themeColor" = Some (VStr v) -> hexColor v = true ->
  parseArgv [name; "themeColor"] st
  = Returned tt (store "themeColor" (VStr ("#" +:+ v))
                   (store name (VStr v) st)).
Proof.
  intros Hin Hne E Hv Hhex. pose proof (parsers_color name d Hin) as P.
  assert (PT : parsers !! "themeColor"
               = Some (getColorParser "themeColor" VUndef)) by reflexivity.
  assert (T : themeColorOf st = VStr v) by (unfold themeColorOf; now rewrite Hv).
  rewrite (parseArgv_cons name _ ["themeColor"] st (store name (VStr v) st) P)
    by (rewrite (color_empty name d _ st E), T;
        now rewrite (truthy_hexColor v Hhex)).
  rewrite (parseArgv_single "themeColor" _ _ PT);
    unfold store at 1 2; cbn [argv]; rewrite lookup_insert_ne by congruence;
    rewrite Hv; cbn [default from_option id];
    rewrite (color_accepted "themeColor" VUndef v _ Hhex); reflexivity.
Qed.

End Colors.

(** C4. Each of the four color fields, given an empty input, stores the
    record's themeColor entry when there is one, and the default its
    validator was built with otherwise. When themeColor is validated just
    before the field, that entry is themeColor's resolved value: the field
    receives '#' followed by the themeColor given, or its own default when
    no themeColor was given. *)
Theorem color_empty_spec `{Host} (name : string) (d : Val) (value : Val)
    (st : State) :
  (name, d) ∈ colorFields ->
  truthy value = false ->
  exists fn, parsers !! name = Some fn
    /\ (truthy (themeColorOf st) = true ->
          fn value st = Returned tt (store name (themeColorOf st) st))
    /\ (truthy (themeColorOf st) = false ->
          fn value st = Returned tt (store name d st))
    /\ (name <> "themeColor" -> default VUndef (argv st !! name) = value ->
        (forall v, argv st !! "themeColor" = Some (VStr v) ->
           hexColor v = true ->
           parseArgv ["themeColor"; name] st
           = Returned tt (store name (VStr ("#" +:+ v))
                            (store "themeColor" (VStr ("#" +:+ v)) st)))
        /\ (truthy (themeColorOf st) = false ->
              parseArgv ["themeColor"; name] st
              = Returned tt (store name d (store "themeColor" VUndef st)))).
Proof.
  intros Hin E. exists (getColorParser name d).
  split; [now apply parsers_color|].
  rewrite (color_empty name d value st E).
  repeat apply conj; try (intros ->; reflexivity).
  intros Hne Hv. apply (themeColor_then name d st Hin Hne).
  now rewrite Hv.
Qed.

(** An absent pngColor takes the validated themeColor, or its own default
    when the record has no themeColor. *)
Lemma color_empty_spec_witness :
  (exists fn, @parsers sampleHost !! "pngColor" = Some fn
     /\ fn VUndef (initial [("themeColor", VStr "#abc")])
        = Returned tt (store "pngColor" (VStr "#abc")
                         (initial [("themeColor", VStr "#abc")])))
  /\ (exists fn, @parsers sampleHost !! "pngColor" = Some fn
        /\ fn VUndef (initial [])
           = Returned tt (store "pngColor" (VStr "fff") (initial []))).
Proof.
  split.
  - destruct (@color_empty_spec sampleHost "pngColor" (VStr "fff") VUndef
                (initial [("themeColor", VStr "#abc")]))
      as (fn & P & T & _ & _).
    + unfold colorFields. apply list_elem_of_In. simpl. tauto.
    + reflexivity.
    + exists fn. split; [exact P | apply T; reflexivity].
  - destruct (@color_empty_spec sampleHost "pngColor" (VStr "fff") VUndef
                (initial []))
      as (fn & P & _ & D & _).
    + unfold colorFields. apply list_elem_of_In. simpl. tauto.
    + reflexivity.
    + exists fn. split; [exact P | apply D; reflexivity].
Defined.

(** C7. A non-empty input to a color validator is stored with a leading
    '#' exactly when it is a string of three or six hexadecimal digits of
    either case, and is fatal in every other case; "fff" and "ffffff" give
    "#fff" and "#ffffff", and "ff" and "gggggg" are fatal. *)
Theorem color_spec `{Host} (name : string) (d : Val) (value : Val)
    (st : State) :
  (name, d) ∈ colorFields ->
  truthy value = true ->
  exists fn, parsers !! name = Some fn
    /\ (forall s, value = VStr s -> hexColor s = true ->
          fn value st = Returned tt (store name (VStr ("#" +:+ s)) st))
    /\ (isHexColor value = false ->
          fn value st = fatal (InvalidColor name value) st)
    /\ fn (VStr "fff") st = Returned tt (store name (VStr "#fff") st)
    /\ fn (VStr "ffffff") st = Returned tt (store name (VStr "#ffffff") st)
    /\ fn (VStr "1976D2") st = Returned tt (store name (VStr "#1976D2") st)
    /\ fn (VStr "ff") st = fatal (InvalidColor name (VStr "ff")) st
    /\ fn (VStr "gggggg") st = fatal (InvalidColor name (VStr "gggggg")) st.
Proof.
  intros Hin T. exists (getColorParser name d).
  split; [now apply parsers_color|].
  repeat apply conj.
  - intros s -> Hs. now apply color_accepted.
  - now apply color_rejected.
  - now apply color_accepted.
  - now apply color_accepted.
  - now apply color_accepted.
  - now apply color_rejected.
  - now apply color_rejected.
Qed.

(** svgColor accepts "1976d2" and rejects "blue". *)
Lemma color_spec_witness :
  (exists fn, @parsers sampleHost !! "svgColor" = Some fn
     /\ fn (VStr "1976d2") (initial [])
        = Returned tt (store "svgColor" (VStr "#1976d2") (initial [])))
  /\ (exists fn, @parsers sampleHost !! "svgColor" = Some fn
        /\ fn (VStr "blue") (initial [])
           = fatal (InvalidColor "svgColor" (VStr "blue")) (initial [])).
Proof.
  split.
  - destruct (@color_spec sampleHost "svgColor" (VStr "1976D2")
                (VStr "1976d2") (initial [])) as (fn & P & A & _).
    + unfold colorFields. apply list_elem_of_In. simpl. tauto.
    + reflexivity.
    + exists fn. split; [exact P | now apply A].
  - destruct (@color_spec sampleHost "svgColor" (VStr "1976D2")
                (VStr "blue") (initial [])) as (fn & P & _ & R & _).
    + unfold colorFields. apply list_elem_of_In. simpl. tauto.
    + reflexivity.
    + exists fn. split; [exact P | now apply R].
Defined.

(** C8. The color validators do not accept their own output: a string of
    three or six hexadecimal digits is stored with a leading '#', and that
    stored value, given back as the input, is fatal; so validating a
    record a second time does not reproduce the normalized color. *)
Theorem color_not_idempotent `{Host} (name : string) (d : Val) (v : string)
    (st : State) :
  (name, d) ∈ colorFields ->
  hexColor v = true ->
  exists fn, parsers !! name = Some fn
    /\ fn (VStr v) st = Returned tt (store name (VStr ("#" +:+ v)) st)
    /\ (forall st' : State,
          fn (VStr ("#" +:+ v)) st'
          = fatal (InvalidColor name (VStr ("#" +:+ v))) st')
    /\ (argv st !! name = Some (VStr v) ->
          parseArgv [name] st
          = Returned tt (store name (VStr ("#" +:+ v)) st)
          /\ parseArgv [name] (store name (VStr ("#" +:+ v)) st)
             = fatal (InvalidColor name (VStr ("#" +:+ v)))
                 (store name (VStr ("#" +:+ v)) st)).
Proof.
  intros Hin Hv. pose proof (parsers_color name d Hin) as P.
  pose proof (color_accepted name d v st Hv) as A.
  assert (R : forall st', getColorParser name d (VStr ("#" +:+ v)) st'
                          = fatal (InvalidColor name (VStr ("#" +:+ v))) st').
  { intros st'. apply color_rejected; [reflexivity|].
    apply hash_not_hexColor. }
  exists (getColorParser name d). repeat apply conj; try assumption.
  intros E. split.
  - rewrite (parseArgv_single name _ st P); rewrite E; simpl.
    + exact A.
    + now rewrite A.
  - apply (parseArgv_single_fatal name _ _ _ P).
    unfold store at 1 2. cbn [argv]. rewrite lookup_insert_eq. apply R.
Qed.

(** themeColor "abc" becomes "#abc", and "#abc" is then refused. *)
Lemma color_not_idempotent_witness :
  exists fn, @parsers sampleHost !! "themeColor" = Some fn
    /\ fn (VStr "abc") (initial [])
       = Returned tt (store "themeColor" (VStr "#abc") (initial []))
    /\ fn (VStr "#abc") (initial [])
       = fatal (InvalidColor "themeColor" (VStr "#abc")) (initial []).
Proof.
  destruct (@color_not_idempotent sampleHost "themeColor" VUndef "abc"
              (initial [])) as (fn & P & A & R & _).
  - unfold colorFields. apply list_elem_of_In. simpl. tauto.
  - reflexivity.
  - exists fn. repeat apply conj; [exact P | exact A | apply R].
Defined.

(** C10. [parseArgv] reads and writes the same record, so a color field
    validated with an empty value receives the record's themeColor entry
    exactly as it stands, whether or not themeColor has been validated,
    with no length or digit check and no '#' added, whenever that entry
    is non-empty; when the entry is empty or absent the field receives its
    own default. Validated before themeColor, the field keeps the raw
    themeColor while themeColor itself goes on to receive its '#'. *)
Theorem themeColor_copied `{Host} (name : string) (d : Val) (st : State) :
  (name, d) ∈ colorFields ->
  truthy (default VUndef (argv st !! name)) = false ->
  (truthy (themeColorOf st) = true ->
     parseArgv [name] st = Returned tt (store name (themeColorOf st) st))
  /\ (truthy (themeColorOf st) = false ->
        parseArgv [name] st = Returned tt (store name d st))
  /\ (forall v, name <> "themeColor" ->
        argv st !! "themeColor" = Some (VStr v) -> hexColor v = true ->
        parseArgv [name; "themeColor"] st
        = Returned tt (store "themeColor" (VStr ("#" +:+ v))
                         (store name (VStr v) st))).
Proof.
  intros Hin E. pose proof (parsers_color name d Hin) as P.
  pose proof (color_empty name d _ st E) as C.
  rewrite (parseArgv_single name _ st P) by now rewrite C.
  rewrite C. repeat apply conj; try (intros ->; reflexivity).
  intros v Hne Hv Hhex. now apply (then_themeColor name d v st).
Qed.

(** A themeColor that is not a color at all is copied into pngColor, and
    a validated one is copied as validated. *)
Lemma themeColor_copied_witness :
  @parseArgv sampleHost ["pngColor"]
    (initial [("themeColor", VStr "not-a-color")])
  = Returned tt (store "pngColor" (VStr "not-a-color")
                   (initial [("themeColor", VStr "not-a-color")]))
  /\ @parseArgv sampleHost ["svgColor"] (initial [])
     = Returned tt (store "svgColor" (VStr "1976D2") (initial [])).
Proof.
  split.
  - apply (@themeColor_copied sampleHost "pngColor" (VStr "fff")).
    + unfold colorFields. apply list_elem_of_In. simpl. tauto.
    + reflexivity.
    + reflexivity.
  - apply (@themeColor_copied sampleHost "svgColor" (VStr "1976D2")).
    + unfold colorFields. apply list_elem_of_In. simpl. tauto.
    + reflexivity.
    + reflexivity.
Defined.

(** With no themeColor in the record, or an empty one, an absent pngColor
    is given the default "fff": not a copy of the themeColor entry. *)
Lemma themeColor_not_copied :
  (argv (initial []) !! "themeColor" = None
   /\ argv (state_of (@parseArgv sampleHost ["pngColor"] (initial [])))
        !! "pngColor" = Some (VStr "fff"))
  /\ (argv (initial [("themeColor", VStr "")]) !! "themeColor"
      = Some (VStr "")
      /\ argv (state_of (@parseArgv sampleHost ["pngColor"]
                           (initial [("themeColor", VStr "")])))
           !! "pngColor" = Some (VStr "fff")).
Proof. repeat apply conj; reflexivity. Qed.

(** ** splashscreenIconRatio *)

Section Ratio.

Context `{Host}.

Lemma ratio_default (value : Val) (st : State) :
  truthy value = false -> is_zero value = false ->
  splashscreenIconRatio value st
  = Returned tt (store "splashscreenIconRatio"
                   defaultSplashscreenIconRatio st).
Proof. intros T Z. unfold splashscreenIconRatio. now rewrite T, Z. Qed.

Lemma ratio_NaN (value : Val) (st : State) :
  truthy value = true \/ is_zero value = true ->
  Number.isNaN (parseFloat value) = true ->
  splashscreenIconRatio value st = fatal InvalidRatioNumber st.
Proof.
  intros D N. unfold splashscreenIconRatio.
  replace (negb (truthy value) && negb (is_zero value)) with false
    by (destruct D as [-> | ->]; now rewrite ?andb_false_r).
  rewrite N. apply when_true_die.
Qed.

Lemma ratio_outside (value : Val) (st : State) :
  truthy value = true \/ is_zero value = true ->
  Number.isNaN (parseFloat value) = false ->
  between 0 100 (parseFloat value) = false ->
  splashscreenIconRatio value st = fatal (InvalidRatioRange value) st.
Proof.
  intros D N B. unfold splashscreenIconRatio.
  replace (negb (truthy value) && negb (is_zero value)) with false
    by (destruct D as [-> | ->]; now rewrite ?andb_false_r).
  rewrite N, when_false_bind.
  rewrite out_of_range_Z, B by (reflexivity || assumption).
  apply when_true_die.
Qed.

Lemma ratio_inside (value : Val) (st : State) :
  truthy value = true \/ is_zero value = true ->
  between 0 100 (parseFloat value) = true ->
  splashscreenIconRatio value st
  = Returned tt (store "splashscreenIconRatio" (VNum (parseFloat value)) st).
Proof.
  intros D B. pose proof (between_not_NaN _ _ _ B) as N.
  unfold splashscreenIconRatio.
  replace (negb (truthy value) && negb (is_zero value)) with false
    by (destruct D as [-> | ->]; now rewrite ?andb_false_r).
  rewrite N, when_false_bind.
  rewrite out_of_range_Z, B by (reflexivity || assumption).
  reflexivity.
Qed.

End Ratio.

(** C9. splashscreenIconRatio: the number 0 is not an empty input, it is
    accepted and stored as 0; an absent or empty input stores the default;
    any other input is parsed as a floating-point number and is fatal when
    the parse is not a number or falls outside 0..100, and is stored as
    parsed otherwise. In particular 101 and -1 are fatal. *)
Theorem splashscreenIconRatio_spec `{Host} (value : Val) (st : State) :
  splashscreenIconRatio (VNum (Number.of_Z 0)) st
  = Returned tt (store "splashscreenIconRatio" (VNum (Number.of_Z 0)) st)
  /\ (truthy value = false -> is_zero value = false ->
        splashscreenIconRatio value st
        = Returned tt (store "splashscreenIconRatio"
                         defaultSplashscreenIconRatio st))
  /\ (truthy value = true \/ is_zero value = true ->
      let numeric := parseFloat value in
      (Number.isNaN numeric = true ->
         splashscreenIconRatio value st = fatal InvalidRatioNumber st)
      /\ (Number.isNaN numeric = false -> between 0 100 numeric = false ->
            splashscreenIconRatio value st
            = fatal (InvalidRatioRange value) st)
      /\ (between 0 100 numeric = true ->
            splashscreenIconRatio value st
            = Returned tt (store "splashscreenIconRatio" (VNum numeric) st)))
  /\ splashscreenIconRatio VUndef st
     = Returned tt (store "splashscreenIconRatio"
                      defaultSplashscreenIconRatio st)
  /\ splashscreenIconRatio (VStr "") st
     = Returned tt (store "splashscreenIconRatio"
                      defaultSplashscreenIconRatio st)
  /\ splashscreenIconRatio (VNum (Number.of_Z 101)) st
     = fatal (InvalidRatioRange (VNum (Number.of_Z 101))) st
  /\ splashscreenIconRatio (VNum (Number.of_Z (-1))) st
     = fatal (InvalidRatioRange (VNum (Number.of_Z (-1)))) st
  /\ splashscreenIconRatio (VStr "101") st
     = fatal (InvalidRatioRange (VStr "101")) st
  /\ splashscreenIconRatio (VStr "-1") st
     = fatal (InvalidRatioRange (VStr "-1")) st
  /\ splashscreenIconRatio (VStr "0") st
     = Returned tt (store "splashscreenIconRatio" (VNum (Number.of_Z 0)) st)
  /\ splashscreenIconRatio (VStr "100") st
     = Returned tt (store "splashscreenIconRatio" (VNum (Number.of_Z 100)) st)
  /\ splashscreenIconRatio (VStr "x") st = fatal InvalidRatioNumber st
  /\ splashscreenIconRatio (VNum (Str.parseFloat "33.3")) st
     = Returned tt (store "splashscreenIconRatio"
                      (VNum (Str.parseFloat "33.3")) st)
  /\ splashscreenIconRatio (VNum (Str.parseFloat "100.5")) st
     = fatal (InvalidRatioRange (VNum (Str.parseFloat "100.5"))) st.
Proof.
  repeat apply conj.
  - apply (ratio_inside (VNum (Number.of_Z 0))); [now right | reflexivity].
  - apply ratio_default.
  - intros D numeric. subst numeric. repeat apply conj.
    + now apply ratio_NaN.
    + now apply ratio_outside.
    + now apply ratio_inside.
  - now apply ratio_default.
  - now apply ratio_default.
  - apply ratio_outside; [now left | reflexivity | reflexivity].
  - apply ratio_outside; [now left | reflexivity | reflexivity].
  - apply ratio_outside; [now left | reflexivity | reflexivity].
  - apply ratio_outside; [now left | reflexivity | reflexivity].
  - apply (ratio_inside (VStr "0")); [now left | reflexivity].
  - apply (ratio_inside (VStr "100")); [now left | reflexivity].
  - apply ratio_NaN; [now left | reflexivity].
  - apply (ratio_inside (VNum (Str.parseFloat "33.3")));
      [now left | vm_compute; reflexivity].
  - apply ratio_outside; [now left | vm_compute; reflexivity
                         | vm_compute; reflexivity].
Qed.

(** A ratio of one half is stored as the double nearest to it. *)
Lemma splashscreenIconRatio_spec_witness :
  @splashscreenIconRatio sampleHost (VStr "0.5") (initial [])
  = Returned tt (store "splashscreenIconRatio"
                   (VNum (S754_finite false 4503599627370496 (-53)))
                   (initial []))
  /\ @splashscreenIconRatio sampleHost VNull (initial [])
     = Returned tt (store "splashscreenIconRatio" (VNum (Number.of_Z 40))
                      (initial [])).
Proof.
  pose proof (@splashscreenIconRatio_spec sampleHost (VStr "0.5") (initial []))
    as (_ & _ & P & _).
  pose proof (@splashscreenIconRatio_spec sampleHost VNull (initial []))
    as (_ & D & _).
  split.
  - destruct (P (or_introl eq_refl)) as (_ & _ & I). apply I. reflexivity.
  - apply D; reflexivity.
Defined.

(** ** mode, assets and include *)

(** Membership in a list written out in full. *)
Ltac listed := apply list_elem_of_In; simpl; tauto.

Ltac not_listed :=
  let Hin := fresh "Hin" in
  intros Hin; apply list_elem_of_In in Hin; simpl in Hin;
  intuition discriminate.

Section Lists.

Context `{Host}.

Lemma truthy_VStr (s : string) : s <> "" -> truthy (VStr s) = true.
Proof. destruct s; [contradiction | reflexivity]. Qed.

Lemma unknown_entry (list : list string) :
  existsb (fun mode => negb (knownMode (VStr mode))) list = true
  <-> exists m, m ∈ list /\ m ∉ modesList.
Proof.
  rewrite existsb_exists. split; intros (m & Hin & Hm); exists m.
  - split; [now apply list_elem_of_In|].
    apply negb_true_iff in Hm. simpl in Hm. now apply bool_decide_eq_false in Hm.
  - split; [now apply list_elem_of_In|].
    apply negb_true_iff. simpl. now apply bool_decide_eq_false.
Qed.

Lemma all_known (list : list string) :
  existsb (fun mode => negb (knownMode (VStr mode))) list = false
  <-> forall m, m ∈ list -> m ∈ modesList.
Proof.
  rewrite <- not_true_iff_false, unknown_entry. split.
  - intros N m Hin. destruct (decide (m ∈ modesList)) as [|Hm]; [assumption|].
    destruct N. now exists m.
  - intros A (m & Hin & Hm). apply Hm. now apply A.
Qed.

Lemma mode_all (s : string) (st : State) :
  s <> "" -> "all" ∈ Str.split "," s ->
  mode (VStr s) st = Returned tt (store "mode" modesArray st).
Proof.
  intros Hs Hall. unfold mode. rewrite (truthy_VStr s Hs). cbn [negb].
  unfold splitCommas, mbind, M_bind, mret, M_ret.
  now rewrite (bool_decide_eq_true_2 _ Hall).
Qed.

Lemma mode_unknown (s : string) (st : State) :
  s <> "" -> "all" ∉ Str.split "," s ->
  (exists m, m ∈ Str.split "," s /\ m ∉ modesList) ->
  mode (VStr s) st = fatal (InvalidMode (VStr s)) st.
Proof.
  intros Hs Hall Hu. unfold mode. rewrite (truthy_VStr s Hs). cbn [negb].
  unfold splitCommas, mbind, M_bind, mret, M_ret.
  rewrite (bool_decide_eq_false_2 _ Hall).
  apply unknown_entry in Hu. now rewrite Hu.
Qed.

Lemma mode_known (s : string) (st : State) :
  s <> "" -> "all" ∉ Str.split "," s ->
  (forall m, m ∈ Str.split "," s -> m ∈ modesList) ->
  mode (VStr s) st
  = Returned tt (store "mode" (VArr (VStr <$> Str.split "," s)) st).
Proof.
  intros Hs Hall Hk. unfold mode. rewrite (truthy_VStr s Hs). cbn [negb].
  unfold splitCommas, mbind, M_bind, mret, M_ret.
  rewrite (bool_decide_eq_false_2 _ Hall).
  apply all_known in Hk. now rewrite Hk.
Qed.

Lemma assets_all (s : string) (st : State) :
  s <> "" -> "all" ∈ Str.split "," s ->
  assets (VStr s) st = Returned tt (store "assets" modesArray st).
Proof.
  intros Hs Hall. unfold assets. rewrite (truthy_VStr s Hs). cbn [negb].
  unfold splitCommas, mbind, M_bind, mret, M_ret.
  now rewrite (bool_decide_eq_true_2 _ Hall).
Qed.

Lemma assets_unknown (s : string) (st : State) :
  s <> "" -> "all" ∉ Str.split "," s ->
  (exists m, m ∈ Str.split "," s /\ m ∉ modesList) ->
  assets (VStr s) st = fatal (InvalidAssets (VStr s)) st.
Proof.
  intros Hs Hall Hu. unfold assets. rewrite (truthy_VStr s Hs). cbn [negb].
  unfold splitCommas, mbind, M_bind, mret, M_ret.
  rewrite (bool_decide_eq_false_2 _ Hall).
  apply unknown_entry in Hu. now rewrite Hu.
Qed.

Lemma assets_known (s : string) (st : State) :
  s <> "" -> "all" ∉ Str.split "," s ->
  (forall m, m ∈ Str.split "," s -> m ∈ modesList) ->
  assets (VStr s) st
  = Returned tt (store "assets" (VArr (VStr <$> Str.split "," s)) st).
Proof.
  intros Hs Hall Hk. unfold assets. rewrite (truthy_VStr s Hs). cbn [negb].
  unfold splitCommas, mbind, M_bind, mret, M_ret.
  rewrite (bool_decide_eq_false_2 _ Hall).
  apply all_known in Hk. now rewrite Hk.
Qed.

Lemma has_all (l : list Val) :
  existsb (fun x => match x with
                    | VStr s => String.eqb s "all"
                    | _ => false
                    end) l = true
  <-> VStr "all" ∈ l.
Proof.
  rewrite existsb_exists. split.
  - intros (x & Hin & Hx). destruct x; try discriminate.
    apply String.eqb_eq in Hx as ->. now apply list_elem_of_In.
  - intros Hin. exists (VStr "all"). split; [now apply list_elem_of_In|].
    reflexivity.
Qed.

Lemma unknown_value (l : list Val) :
  existsb (fun mode => negb (knownMode mode)) l = true
  <-> exists v, v ∈ l /\ knownMode v = false.
Proof.
  rewrite existsb_exists. split; intros (v & Hin & Hv); exists v.
  - split; [now apply list_elem_of_In | now apply negb_true_iff].
  - split; [now apply list_elem_of_In | now apply negb_true_iff].
Qed.

Lemma include_empty (value : Val) (st : State) :
  truthy value = false -> include value st = Returned tt st.
Proof. intros E. unfold include. now rewrite E. Qed.

Lemma include_all (l : list Val) (st : State) :
  VStr "all" ∈ l ->
  include (VArr l) st = Returned tt (store "include" modesArray st).
Proof.
  intros Hall. unfold include. cbn [truthy negb].
  unfold mbind, M_bind, mret, M_ret.
  apply has_all in Hall. now rewrite Hall.
Qed.

Lemma include_unknown (l : list Val) (st : State) :
  VStr "all" ∉ l ->
  (exists v, v ∈ l /\ knownMode v = false) ->
  include (VArr l) st = fatal (InvalidInclude (VArr l)) st.
Proof.
  intros Hall Hu. unfold include. cbn [truthy negb].
  unfold mbind, M_bind, mret, M_ret.
  rewrite <- has_all in Hall. apply not_true_is_false in Hall. rewrite Hall.
  apply unknown_value in Hu. now rewrite Hu.
Qed.

Lemma include_known (l : list Val) (st : State) :
  VStr "all" ∉ l ->
  (forall v, v ∈ l -> knownMode v = true) ->
  include (VArr l) st = Returned tt st.
Proof.
  intros Hall Hk. unfold include. cbn [truthy negb].
  unfold mbind, M_bind, mret, M_ret.
  rewrite <- has_all in Hall. apply not_true_is_false in Hall. rewrite Hall.
  replace (existsb (fun mode => negb (knownMode mode)) l) with false;
    [reflexivity|].
  symmetry. apply not_true_is_false. rewrite unknown_value.
  intros (v & Hin & Hv). rewrite (Hk v Hin) in Hv. discriminate.
Qed.

Lemma include_string (s : string) (st : State) :
  s <> "" ->
  include (VStr s) st
  = if Str.includes "all" s
    then Returned tt (store "include" modesArray st)
    else Thrown st.
Proof.
  intros Hs. unfold include. rewrite (truthy_VStr s Hs). cbn [negb].
  unfold mbind, M_bind, mret, M_ret. now destruct (Str.includes "all" s).
Qed.

Lemma include_frame (value : Val) (st : State) :
  argv (state_of (include value st)) = argv st
  \/ argv (state_of (include value st)) = <["include" := modesArray]> (argv st).
Proof.
  unfold include.
  destruct value; cbn [truthy negb];
    unfold mbind, M_bind, mret, M_ret, when, throw, assign;
    repeat match goal with
           | |- context [if ?b then _ else _] => destruct b
           end; cbn [state_of argv]; auto.
Qed.

End Lists.

(** C2. mode and assets, on a comma-separated list: when "all" is one of
    the entries the full catalog is stored, whatever the other entries
    are; when "all" is not among them, any entry outside the catalog is
    fatal, wherever it stands in the list, and a list of known modes is
    stored as it is. *)
Theorem mode_assets_spec `{Host} (s : string) (st : State) :
  s <> "" ->
  ("all" ∈ Str.split "," s ->
     mode (VStr s) st = Returned tt (store "mode" modesArray st)
     /\ assets (VStr s) st = Returned tt (store "assets" modesArray st))
  /\ ("all" ∉ Str.split "," s ->
      (exists m, m ∈ Str.split "," s /\ m ∉ modesList) ->
      mode (VStr s) st = fatal (InvalidMode (VStr s)) st
      /\ assets (VStr s) st = fatal (InvalidAssets (VStr s)) st)
  /\ ("all" ∉ Str.split "," s ->
      (forall m, m ∈ Str.split "," s -> m ∈ modesList) ->
      mode (VStr s) st
      = Returned tt (store "mode" (VArr (VStr <$> Str.split "," s)) st)
      /\ assets (VStr s) st
         = Returned tt (store "assets" (VArr (VStr <$> Str.split "," s)) st)).
Proof.
  intros Hs. repeat apply conj.
  - intros Hall. split; [now apply mode_all | now apply assets_all].
  - intros Hall Hu. split; [now apply mode_unknown | now apply assets_unknown].
  - intros Hall Hk. split; [now apply mode_known | now apply assets_known].
Qed.

(** On the sample installation: "all" wins over its neighbours, an unknown
    entry after a known one is fatal, and a list of known modes is kept. *)
Lemma mode_assets_spec_witness :
  @mode sampleHost (VStr "pwa,all") (initial [])
  = Returned tt (store "mode" (@modesArray sampleHost) (initial []))
  /\ @assets sampleHost (VStr "spa,bogus") (initial [])
     = fatal (InvalidAssets (VStr "spa,bogus")) (initial [])
  /\ @mode sampleHost (VStr "spa,pwa") (initial [])
     = Returned tt (store "mode" (VArr [VStr "spa"; VStr "pwa"]) (initial [])).
Proof.
  repeat apply conj.
  - apply (@mode_assets_spec sampleHost "pwa,all" (initial []));
      [discriminate|].
    listed.
  - apply (@mode_assets_spec sampleHost "spa,bogus" (initial []));
      [discriminate| |].
    + not_listed.
    + exists "bogus". split; [listed|].
      not_listed.
  - apply (@mode_assets_spec sampleHost "spa,pwa" (initial []));
      [discriminate| |].
    + not_listed.
    + intros m Hm. apply list_elem_of_In in Hm. simpl in Hm.
      apply list_elem_of_In. simpl. intuition.
Defined.

(** "all" next to an entry outside the catalog is not fatal: mode and
    assets store the full catalog. *)
Lemma mode_all_beside_unknown :
  "bogus" ∈ Str.split "," "all,bogus"
  /\ ("bogus" ∉ @modesList sampleHost)
  /\ @mode sampleHost (VStr "all,bogus") (initial [])
     = Returned tt (store "mode" (@modesArray sampleHost) (initial []))
  /\ @assets sampleHost (VStr "all,bogus") (initial [])
     = Returned tt (store "assets" (@modesArray sampleHost) (initial [])).
Proof.
  repeat apply conj; try reflexivity.
  - listed.
  - not_listed.
Qed.

(** C3. include: an empty input leaves the record alone; an array holding
    "all" has the full catalog written to the record's include entry; any
    other array is checked against the catalog, an entry outside it being
    fatal, and leaves the record as it was. A string is searched for "all"
    as a substring and has no entries to check. Whatever the input, the
    record is afterwards either unchanged or changed in its include entry
    alone, which then holds the full catalog. *)
Theorem include_spec `{Host} (value : Val) (st : State) :
  (truthy value = false -> include value st = Returned tt st)
  /\ (forall l : list Val, value = VArr l ->
        (VStr "all" ∈ l ->
           include value st = Returned tt (store "include" modesArray st))
        /\ (VStr "all" ∉ l ->
            (exists v, v ∈ l /\ knownMode v = false) ->
            include value st = fatal (InvalidInclude value) st)
        /\ (VStr "all" ∉ l ->
            (forall v, v ∈ l -> knownMode v = true) ->
            include value st = Returned tt st))
  /\ (forall s : string, value = VStr s -> s <> "" ->
        include value st
        = if Str.includes "all" s
          then Returned tt (store "include" modesArray st)
          else Thrown st)
  /\ (argv (state_of (include value st)) = argv st
      \/ argv (state_of (include value st))
         = <["include" := modesArray]> (argv st)).
Proof.
  split; [apply include_empty|].
  split; [|split].
  - intros l ->. repeat apply conj.
    + apply include_all.
    + apply include_unknown.
    + apply include_known.
  - intros s ->. apply include_string.
  - apply include_frame.
Qed.

(** On the sample installation: a list of known modes changes nothing, and
    a list with "all" is replaced by the catalog. *)
Lemma include_spec_witness :
  @include sampleHost (VArr [VStr "spa"; VStr "pwa"])
    (initial [("include", VArr [VStr "spa"; VStr "pwa"])])
  = Returned tt (initial [("include", VArr [VStr "spa"; VStr "pwa"])])
  /\ @include sampleHost (VArr [VStr "spa"; VStr "all"]) (initial [])
     = Returned tt (store "include" (@modesArray sampleHost) (initial [])).
Proof.
  pose proof (@include_spec sampleHost (VArr [VStr "spa"; VStr "pwa"])
                (initial [("include", VArr [VStr "spa"; VStr "pwa"])]))
    as (_ & K & _).
  pose proof (@include_spec sampleHost (VArr [VStr "spa"; VStr "all"])
                (initial [])) as (_ & A & _).
  split.
  - apply (K _ eq_refl).
    + not_listed.
    + intros v Hin. apply list_elem_of_In in Hin. simpl in Hin.
      destruct Hin as [<-|[<-|[]]]; reflexivity.
  - apply (A _ eq_refl). listed.
Defined.

(** include does write to the record: given ["all"], the record's include
    entry changes from ["all"] to the full catalog. *)
Lemma include_all_assigns :
  argv (initial [("include", VArr [VStr "all"])]) !! "include"
  = Some (VArr [VStr "all"])
  /\ argv (state_of (@include sampleHost (VArr [VStr "all"])
                       (initial [("include", VArr [VStr "all"])])))
       !! "include"
     = Some (VArr [VStr "spa"; VStr "pwa"; VStr "electron"])
  /\ argv (state_of (@parseArgv sampleHost ["include"]
                       (initial [("include", VArr [VStr "all"])])))
       !! "include"
     = Some (VArr [VStr "spa"; VStr "pwa"; VStr "electron"]).
Proof. repeat apply conj; reflexivity. Qed.

(** ** Writes and checks *)

Ltac run :=
  repeat progress
    (unfold mbind, M_bind, mret, M_ret, when, die, warn, exit, throw, assign,
       read, untildified, splitCommas, pngSize;
     cbn [state_of returned argv log]).

Ltac branches :=
  repeat (cbn [state_of returned argv log negb];
          match goal with
          | |- context [if ?b then _ else _] =>
              lazymatch b with
              | true => fail
              | false => fail
              | _ => destruct b
              end
          end);
  cbn [state_of returned argv log negb].

Ltac settle := intros; solve [reflexivity | discriminate].

Section Writes.

Context `{Host}.

Lemma profile_validates : validatesBeforeStoring profile.
Proof.
  intros value st. unfold profile.
  destruct value; run; cbn [truthy negb]; branches; run; settle.
Qed.

Lemma mode_validates : validatesBeforeStoring mode.
Proof.
  intros value st. unfold mode.
  destruct value; run; cbn [truthy negb]; branches; run; settle.
Qed.

Lemma assets_validates : validatesBeforeStoring assets.
Proof.
  intros value st. unfold assets.
  destruct value; run; cbn [truthy negb]; branches; run; settle.
Qed.

Lemma include_validates : validatesBeforeStoring include.
Proof.
  intros value st. unfold include.
  destruct value; run; cbn [truthy negb]; branches; run; settle.
Qed.

Lemma quality_validates : validatesBeforeStoring quality.
Proof.
  intros value st. unfold quality. run. branches; run; settle.
Qed.

Lemma filter_validates : validatesBeforeStoring filter.
Proof.
  intros value st. unfold filter. run. branches; run; settle.
Qed.

Lemma output_validates : validatesBeforeStoring output.
Proof.
  intros value st. unfold output. run. branches; run; settle.
Qed.

Lemma ratio_validates : validatesBeforeStoring splashscreenIconRatio.
Proof.
  intros value st. unfold splashscreenIconRatio. run. branches; run; settle.
Qed.

Lemma color_validates (name : string) (d : Val) :
  validatesBeforeStoring (getColorParser name d).
Proof.
  intros value st. unfold getColorParser. run. branches; run; settle.
Qed.

Lemma padding_validates : validatesBeforeStoring padding.
Proof.
  intros value st.
  destruct (truthy value) eqn:T.
  2:{ rewrite (padding_empty value st T). discriminate. }
  destruct (paddingSizes value) as [sizes|] eqn:P.
  2:{ now rewrite (padding_no_method value st T P). }
  destruct (Nat.le_gt_cases (List.length sizes) 2) as [L|L].
  2:{ now rewrite (padding_too_many value sizes st T P L). }
  destruct (forallb paddingSize sizes) eqn:B.
  - rewrite (padding_accepted value sizes st T P L B). discriminate.
  - destruct (padding_rejected value sizes st T P L B) as [msg ->].
    reflexivity.
Qed.

Lemma parseIconPath_found (s : string) (st : State) :
  exists p, parseIconPath (VStr s) st = Returned p st
    /\ (p = VNull \/ exists q, p = VStr q /\ existsSync q = true).
Proof.
  unfold parseIconPath. run.
  destruct (isAbsolute (untildify s)).
  - destruct (existsSync (untildify s)) eqn:E;
      eexists; (split; [reflexivity | eauto]).
  - destruct (existsSync (resolve cwd (untildify s))) eqn:E1;
      [eexists; (split; [reflexivity | eauto])|].
    destruct (existsSync (resolve appDir (untildify s))) eqn:E2;
      eexists; (split; [reflexivity | eauto]).
Qed.

Lemma icon_checked (value : Val) (st : State) :
  truthy value = true ->
  returned (icon value st) = true ->
  exists path,
    argv (state_of (icon value st)) !! "icon" = Some (VStr path)
    /\ pngAtLeast 64 path.
Proof.
  intros T. unfold icon. rewrite T. cbn [negb].
  destruct value as [| | | |s|];
    try (unfold parseIconPath; run; discriminate).
  destruct (parseIconPath_found s st) as (p & Hp & [->|(q & -> & Ex)]);
    rewrite (bind_returned _ _ _ _ _ Hp); run;
    rewrite lookup_insert_eq; cbn [default from_option id truthy negb]; run;
    [discriminate|].
  destruct (String.eqb q ""); cbn [negb]; run; [discriminate|].
  rewrite lookup_insert_eq. cbn [default from_option id].
  unfold pngAtLeast. destruct (getPngSize q) as [w h] eqn:Sz.
  destruct ((w =? 0) && (h =? 0)) eqn:Z0; run; [discriminate|].
  destruct ((w <? 64) || (h <? 64)) eqn:Sm; run; [discriminate|].
  intros _. exists q. rewrite lookup_insert_eq, Sz. cbn [fst snd].
  apply orb_false_elim in Sm as [Sw Sh]. apply Z.ltb_ge in Sw, Sh.
  repeat apply conj; try assumption; try reflexivity. lia.
Qed.

Lemma background_checked (value : Val) (st : State) :
  truthy value = true ->
  returned (background value st) = true ->
  exists path,
    argv (state_of (background value st)) !! "background" = Some (VStr path)
    /\ pngAtLeast 128 path.
Proof.
  intros T. unfold background. rewrite T. cbn [negb].
  destruct value as [| | | |s|]; run; try discriminate.
  rewrite lookup_insert_eq. cbn [default from_option id exists_].
  destruct (existsSync (resolve appDir (untildify s))) eqn:Ex;
    cbn [negb]; run; [|discriminate].
  rewrite lookup_insert_eq. cbn [default from_option id].
  unfold pngAtLeast.
  destruct (getPngSize (resolve appDir (untildify s))) as [w h] eqn:Sz.
  destruct ((w =? 0) && (h =? 0)) eqn:Z0; run; [discriminate|].
  destruct ((w <? 128) || (h <? 128)) eqn:Sm; run; [discriminate|].
  intros _. exists (resolve appDir (untildify s)).
  rewrite lookup_insert_eq, Sz. cbn [fst snd].
  apply orb_false_elim in Sm as [Sw Sh]. apply Z.ltb_ge in Sw, Sh.
  repeat apply conj; try assumption; try reflexivity. lia.
Qed.

Lemma parsers_registered (name : string) (fn : Val -> M unit) :
  parsers !! name = Some fn ->
  (name, fn) ∈
    [ ("profile", profile); ("mode", mode); ("quality", quality);
      ("filter", filter); ("padding", padding); ("icon", icon);
      ("background", background);
      ("splashscreenIconRatio", splashscreenIconRatio);
      ("themeColor", getColorParser "themeColor" VUndef);
      ("pngColor", getColorParser "pngColor" defaultPngColor);
      ("splashscreenColor",
        getColorParser "splashscreenColor" defaultSplashscreenColor);
      ("svgColor", getColorParser "svgColor" defaultSvgColor);
      ("include", include); ("output", output); ("assets", assets) ].
Proof. apply elem_of_list_to_map_2. Qed.

End Writes.

(** C1. A validator other than icon and background writes to the record
    only after all its checks have passed: whenever it does not return,
    the record is as it was. icon and background assign the resolved path
    first and check it afterwards; when they return on a non-empty input,
    the path they have stored exists and is a PNG of at least 64x64
    (icon) or 128x128 (background) pixels. *)
Theorem stored_values_validated `{Host} (name : string)
    (fn : Val -> M unit) :
  parsers !! name = Some fn ->
  (name <> "icon" -> name <> "background" -> validatesBeforeStoring fn)
  /\ (name = "icon" ->
      forall value st,
        truthy value = true -> returned (fn value st) = true ->
        exists path,
          argv (state_of (fn value st)) !! "icon" = Some (VStr path)
          /\ pngAtLeast 64 path)
  /\ (name = "background" ->
      forall value st,
        truthy value = true -> returned (fn value st) = true ->
        exists path,
          argv (state_of (fn value st)) !! "background" = Some (VStr path)
          /\ pngAtLeast 128 path).
Proof.
  intros P. apply parsers_registered in P.
  repeat (apply elem_of_cons in P as [P|P];
          [injection P as -> ->;
           repeat apply conj; try congruence; intros;
           first [ apply profile_validates | apply mode_validates
                 | apply quality_validates | apply filter_validates
                 | apply padding_validates | apply ratio_validates
                 | apply color_validates | apply include_validates
                 | apply output_validates | apply assets_validates
                 | now apply icon_checked | now apply background_checked ]
          |]).
  now apply elem_of_nil in P.
Qed.

(** On the sample installation: a refused quality leaves the record
    untouched, and an accepted icon is a PNG of 512x512 pixels. *)
Lemma stored_values_validated_witness :
  argv (state_of (@quality sampleHost (VStr "99")
                    (initial [("quality", VStr "99")])))
  = argv (initial [("quality", VStr "99")])
  /\ exists path,
       argv (state_of (@icon sampleHost (VStr "icon.png") (initial [])))
         !! "icon" = Some (VStr path)
       /\ @pngAtLeast sampleHost 64 path.
Proof.
  split.
  - apply (@stored_values_validated sampleHost "quality" quality eq_refl);
      [discriminate | discriminate | reflexivity].
  - apply (@stored_values_validated sampleHost "icon" icon eq_refl);
      reflexivity.
Defined.

(** icon and background store the path before checking it: after a fatal
    exit the record holds a background that does not exist, an icon that
    is too small, or null for an icon that could not be found. *)
Lemma path_stored_before_checks :
  (exited (@background sampleHost (VStr "missing.png") (initial [])) = true
   /\ argv (state_of (@background sampleHost (VStr "missing.png")
                        (initial []))) !! "background"
      = Some (VStr "/app/missing.png")
   /\ @existsSync sampleHost "/app/missing.png" = false)
  /\ (exited (@icon sampleHost (VStr "small.png") (initial [])) = true
      /\ argv (state_of (@icon sampleHost (VStr "small.png") (initial [])))
           !! "icon" = Some (VStr "/work/small.png")
      /\ @getPngSize sampleHost "/work/small.png" = (32, 32))
  /\ (exited (@icon sampleHost (VStr "missing.png") (initial [])) = true
      /\ argv (state_of (@icon sampleHost (VStr "missing.png") (initial [])))
           !! "icon" = Some VNull).
Proof. repeat apply conj; reflexivity. Qed.

(** ** Numbers in and out of strings *)

Example toString_samples :
  Number.toString (Str.parseFloat "0.1") = "0.1"
  /\ Number.toString (Str.parseFloat "33.30") = "33.3"
  /\ Number.toString (Str.parseFloat "1e21") = "1e+21"
  /\ Number.toString (Str.parseFloat "123456789012345678901") =
     "123456789012345680000"
  /\ Number.toString (Str.parseFloat "0.000001") = "0.000001"
  /\ Number.toString (Str.parseFloat "0.0000001") = "1e-7"
  /\ Number.toString (Str.parseFloat "-12.5e-10") = "-1.25e-9"
  /\ Number.toString (Str.parseFloat "5e-324") = "5e-324"
  /\ Number.toString (Str.parseFloat "-0") = "0".
Proof. vm_compute. repeat apply conj; reflexivity. Qed.

Example parse_samples :
  Str.parseInt "  42px" = Number.of_Z 42
  /\ Str.parseInt "-7.9" = Number.of_Z (-7)
  /\ Str.parseInt "px" = Number.NaN
  /\ Str.parseFloat ".5" = S754_finite false 4503599627370496 (-53)
  /\ Str.parseFloat "1e3" = Number.of_Z 1000
  /\ Str.parseFloat "1e400" = Number.Infinity
  /\ Str.parseFloat "." = Number.NaN.
Proof. vm_compute. repeat apply conj; reflexivity. Qed.

(** ** A whole invocation *)

(** quality "7", padding "10" and mode "all", validated in that order, end
    as the integer 7, the pair [10,10] and the full catalog. *)
Example parseArgv_end_to_end :
  @parseArgv sampleHost ["quality"; "padding"; "mode"]
    (initial [("quality", VStr "7"); ("padding", VStr "10");
              ("mode", VStr "all")])
  = Returned tt
      (initial [("quality", VNum (Number.of_Z 7));
                ("padding", VArr [VNum (Number.of_Z 10);
                                  VNum (Number.of_Z 10)]);
                ("mode", VArr [VStr "spa"; VStr "pwa"; VStr "electron"])]).
Proof. vm_compute. reflexivity. Qed.

(** An unregistered parameter name is fatal, and the validators that
    follow it are not run. *)
Example parseArgv_unknown_name :
  @parseArgv sampleHost ["qualty"; "output"] (initial [])
  = fatal (InvalidParameter "qualty") (initial []).
Proof. reflexivity. Qed.

(** * Further properties of the validators *)

(** ** One validator, one effect *)

Ltac summarize :=
  solve [ exists Keeps; split; [exact I | intros ?; reflexivity]
        | eexists (Writes _ []); split; [now left | intros ?; reflexivity]
        | eexists (Fails _ None); (split; [|intros ?; reflexivity]);
          discriminate
        | exists Raises; split; [exact I | intros ?; reflexivity] ].

Ltac conditions :=
  repeat match goal with
         | |- context [when ?c _] =>
             lazymatch c with
             | true => fail
             | false => fail
             | _ => destruct c
             end
         | |- context [if ?c then _ else _] =>
             lazymatch c with
             | true => fail
             | false => fail
             | _ => destruct c
             end
         end.

Lemma bind_ret {A B : Type} (a : A) (f : A -> M B) : (mret a ≫= f) = f a.
Proof. reflexivity. Qed.

Ltac plain_effect lemma :=
  let e := fresh "e" in
  let He := fresh "He" in
  let Ht := fresh "Ht" in
  destruct lemma as (e & Ht & He); exists e; split; [exact Ht|];
  intros ? _; apply He.

Ltac themed_effect lemma :=
  let e := fresh "e" in
  let He := fresh "He" in
  let Hc := fresh "Hc" in
  let Ht := fresh "Ht" in
  destruct lemma as (e & Ht & He); exists e; split; [exact Ht|];
  intros ? Hc; apply He, Hc; apply list_elem_of_In; simpl; tauto.

Section Effects.

Context `{Host}.

Lemma profile_effect (value : Val) :
  exists e, tidy "profile" e /\ forall st, profile value st = effect "profile" e st.
Proof.
  unfold profile. destruct value; cbn [truthy negb untildified];
    rewrite ?bind_ret; conditions; summarize.
Qed.

Lemma mode_effect (value : Val) :
  exists e, tidy "mode" e /\ forall st, mode value st = effect "mode" e st.
Proof.
  unfold mode. destruct value; cbn [truthy negb splitCommas];
    rewrite ?bind_ret; conditions; summarize.
Qed.

Lemma assets_effect (value : Val) :
  exists e, tidy "assets" e /\ forall st, assets value st = effect "assets" e st.
Proof.
  unfold assets. destruct value; cbn [truthy negb splitCommas];
    rewrite ?bind_ret; conditions; summarize.
Qed.

Lemma include_effect (value : Val) :
  exists e, tidy "include" e /\ forall st, include value st = effect "include" e st.
Proof.
  unfold include. destruct value; cbn [truthy negb];
    rewrite ?bind_ret; conditions; summarize.
Qed.

Lemma quality_effect (value : Val) :
  exists e, tidy "quality" e /\ forall st, quality value st = effect "quality" e st.
Proof. unfold quality. conditions; summarize. Qed.

Lemma filter_effect (value : Val) :
  exists e, tidy "filter" e /\ forall st, filter value st = effect "filter" e st.
Proof. unfold filter. conditions; summarize. Qed.

Lemma output_effect (value : Val) :
  exists e, tidy "output" e /\ forall st, output value st = effect "output" e st.
Proof. unfold output. conditions; summarize. Qed.

Lemma ratio_effect (value : Val) :
  exists e, tidy "splashscreenIconRatio" e /\ forall st,
    splashscreenIconRatio value st = effect "splashscreenIconRatio" e st.
Proof. unfold splashscreenIconRatio. conditions; summarize. Qed.

Lemma check_first_bad (sizes : list number) :
  forallb paddingSize sizes = false ->
  exists msg, msg <> Blank
    /\ forall st, forEach checkSize sizes st = fatal msg st.
Proof.
  induction sizes as [|x r IH]; intros E; [discriminate|].
  simpl in E. destruct (paddingSize x) eqn:Ex.
  - destruct (IH E) as (msg & Hb & Hm). exists msg. split; [exact Hb|].
    intros st. cbn [forEach].
    rewrite (bind_returned _ _ _ _ _ (check_paddingSize x st Ex)). apply Hm.
  - unfold paddingSize in Ex.
    destruct (Number.isNaN x) eqn:N.
    + exists InvalidPaddingNotNumbers. split; [discriminate|].
      intros st. cbn [forEach]. unfold checkSize. now rewrite N.
    + destruct (Number.lt x (Number.of_Z 0)) eqn:L; [|discriminate].
      exists InvalidPaddingNotPositive. split; [discriminate|].
      intros st. cbn [forEach]. unfold checkSize. now rewrite N, L.
Qed.

Lemma padding_effect (value : Val) :
  exists e, tidy "padding" e /\ forall st, padding value st = effect "padding" e st.
Proof.
  destruct (truthy value) eqn:T.
  2:{ eexists (Writes _ []). split; [now left|].
      intros st. apply (padding_empty value st T). }
  destruct (paddingSizes value) as [sizes|] eqn:P.
  2:{ exists Raises. split; [exact I|].
      intros st. apply (padding_no_method value st T P). }
  destruct (Nat.le_gt_cases (List.length sizes) 2) as [L|L].
  2:{ exists (Fails InvalidPadding None). split; [discriminate|]. intros st.
      apply (padding_too_many value sizes st T P L). }
  destruct (forallb paddingSize sizes) eqn:B.
  - eexists (Writes _ []). split; [now left|]. intros st.
    apply (padding_accepted value sizes st T P L B).
  - destruct (check_first_bad sizes B) as (msg & Hb & Hm).
    exists (Fails msg None). split; [exact Hb|]. intros st.
    rewrite (padding_unfold value sizes st T P).
    apply Nat.ltb_ge in L. rewrite L, when_false_bind.
    unfold mbind, M_bind. now rewrite Hm.
Qed.

Lemma parseIconPath_pure (s : string) :
  exists p, (forall st, parseIconPath (VStr s) st = Returned p st)
    /\ (p = VNull \/ exists q, p = VStr q /\ existsSync q = true).
Proof.
  unfold parseIconPath. cbn [untildified]. rewrite bind_ret.
  destruct (isAbsolute (untildify s)).
  - destruct (existsSync (untildify s)) eqn:E;
      eexists; (split; [intros st; reflexivity | eauto]).
  - destruct (existsSync (resolve cwd (untildify s))) eqn:E1;
      [eexists; (split; [intros st; reflexivity | eauto])|].
    destruct (existsSync (resolve appDir (untildify s))) eqn:E2;
      eexists; (split; [intros st; reflexivity | eauto]).
Qed.

(** What [icon] does with the path [parseIconPath] found. *)
Lemma icon_found (s : string) (p : Val) :
  truthy (VStr s) = true ->
  (forall st, parseIconPath (VStr s) st = Returned p st) ->
  p = VNull \/ (exists q, p = VStr q) ->
  forall st,
    icon (VStr s) st
    = effect "icon"
        match p with
        | VStr q =>
            if String.eqb q "" then Fails (IconPathMissing (VStr s)) (Some p)
            else if (fst (getPngSize q) =? 0) && (snd (getPngSize q) =? 0)
            then Fails IconNotPng (Some p)
            else if (fst (getPngSize q) <? 64) || (snd (getPngSize q) <? 64)
            then Fails IconTooSmall (Some p)
            else Writes p []
        | _ => Fails (IconPathMissing (VStr s)) (Some p)
        end st.
Proof.
  intros T Hp Shape st. unfold icon. rewrite T. cbn [negb].
  rewrite (bind_returned _ _ _ _ _ (Hp st)). run.
  rewrite lookup_insert_eq. cbn [default from_option id].
  destruct Shape as [->|[q ->]]; cbn [truthy negb]; run; [reflexivity|].
  destruct (String.eqb q ""); cbn [negb]; run; [reflexivity|].
  rewrite lookup_insert_eq. cbn [default from_option id].
  destruct (getPngSize q) as [w h]. cbn [fst snd].
  destruct ((w =? 0) && (h =? 0)); run; [reflexivity|].
  destruct ((w <? 64) || (h <? 64)); reflexivity.
Qed.

Lemma icon_effect (value : Val) :
  exists e, tidy "icon" e /\ forall st, icon value st = effect "icon" e st.
Proof.
  destruct (truthy value) eqn:T.
  2:{ exists (Writes (VStr sampleIcon) [NoSourceIcon]). split; [right; now split|].
      intros st. unfold icon. now rewrite T. }
  destruct value as [| |b|n|s|l];
    try (exists Raises; split; [exact I|]; intros st;
         unfold icon, parseIconPath; rewrite T; reflexivity).
  destruct (parseIconPath_pure s) as (p & Hp & Shape).
  eexists. split; [|intros st; apply (icon_found s p T Hp);
                     destruct Shape as [->|(q & -> & _)]; eauto].
  destruct Shape as [->|(q & -> & _)]; [discriminate|].
  repeat match goal with
         | |- context [if ?c then _ else _] => destruct c
         end; cbn [tidy]; first [discriminate | now left].
Qed.

(** What [background] does with a non-empty string. *)
Lemma background_found (s : string) (st : State) :
  truthy (VStr s) = true ->
  background (VStr s) st
  = effect "background"
      (let path := resolve appDir (untildify s) in
       if negb (existsSync path)
       then Fails (BackgroundPathMissing (VStr s)) (Some (VStr path))
       else if (fst (getPngSize path) =? 0) && (snd (getPngSize path) =? 0)
       then Fails BackgroundNotPng (Some (VStr path))
       else if (fst (getPngSize path) <? 128) || (snd (getPngSize path) <? 128)
       then Fails BackgroundTooSmall (Some (VStr path))
       else Writes (VStr path) []) st.
Proof.
  intros T. unfold background. rewrite T. cbn [negb]. run.
  rewrite lookup_insert_eq. cbn [default from_option id exists_].
  destruct (existsSync (resolve appDir (untildify s)));
    cbn [negb]; run; [|reflexivity].
  rewrite lookup_insert_eq. cbn [default from_option id].
  destruct (getPngSize (resolve appDir (untildify s))) as [w h].
  cbn [fst snd].
  destruct ((w =? 0) && (h =? 0)); run; [reflexivity|].
  destruct ((w <? 128) || (h <? 128)); reflexivity.
Qed.

Lemma background_effect (value : Val) :
  exists e, tidy "background" e /\ forall st, background value st = effect "background" e st.
Proof.
  destruct (truthy value) eqn:T.
  2:{ exists Keeps. split; [exact I|].
      intros st. unfold background. now rewrite T. }
  destruct value as [| |b|n|s|l];
    try (exists Raises; split; [exact I|]; intros st;
         unfold background; rewrite T; reflexivity).
  eexists. split; [|intros st; apply (background_found s st T)].
  cbn zeta.
  repeat match goal with
         | |- context [if ?c then _ else _] => destruct c
         end; cbn [tidy]; first [discriminate | now left].
Qed.

Lemma color_effect (name : string) (d value tc : Val) :
  exists e, tidy name e /\ forall st,
    themeColorOf st = tc -> getColorParser name d value st = effect name e st.
Proof.
  destruct (truthy value) eqn:T.
  - unfold getColorParser. rewrite T. cbn [negb].
    conditions;
      [ eexists (Fails _ None); (split; [|intros st _; reflexivity]);
        discriminate
      | eexists (Writes _ []); split; [now left | intros st _; reflexivity] ].
  - exists (Writes (if truthy tc then tc else d) []).
    split; [now left|]. intros st <-.
    rewrite (color_empty name d value st T). reflexivity.
Qed.

(** Every registered validator, given a value, has one effect, whatever
    the record; a color validator has one per themeColor entry. *)
Lemma registered_effect (name : string) (fn : Val -> M unit)
    (value tc : Val) :
  parsers !! name = Some fn ->
  exists e, tidy name e /\ forall st,
    (name ∈ "themeColor" :: dependentColors -> themeColorOf st = tc) ->
    fn value st = effect name e st.
Proof.
  intros P. apply parsers_registered in P.
  repeat (apply elem_of_cons in P as [P|P];
          [injection P as -> ->;
           first
             [ plain_effect (profile_effect value)
             | plain_effect (mode_effect value)
             | plain_effect (quality_effect value)
             | plain_effect (filter_effect value)
             | plain_effect (padding_effect value)
             | plain_effect (icon_effect value)
             | plain_effect (background_effect value)
             | plain_effect (ratio_effect value)
             | plain_effect (include_effect value)
             | plain_effect (output_effect value)
             | plain_effect (assets_effect value)
             | themed_effect (color_effect "themeColor" VUndef value tc)
             | themed_effect (color_effect "pngColor" defaultPngColor value tc)
             | themed_effect (color_effect "splashscreenColor"
                                defaultSplashscreenColor value tc)
             | themed_effect (color_effect "svgColor" defaultSvgColor value tc) ]
          |]).
  now apply elem_of_nil in P.
Qed.

End Effects.

(** ** Effects on the record *)

Lemma effect_returned (name : string) (e : Effect) (st : State) :
  returned (effect name e st) = accepts e.
Proof. now destruct e. Qed.

Lemma effect_frame (name k : string) (e : Effect) (st : State) :
  k <> name ->
  argv (state_of (effect name e st)) !! k = argv st !! k.
Proof.
  intros Hk. destruct e as [|v w|msg [v|]|]; cbn [effect state_of argv];
    try reflexivity; now apply lookup_insert_ne.
Qed.

Lemma effect_keeps_entries (name k : string) (e : Effect) (st : State) :
  is_Some (argv st !! k) ->
  is_Some (argv (state_of (effect name e st)) !! k).
Proof.
  intros Hk. destruct e as [|v w|msg [v|]|]; cbn [effect state_of argv];
    try assumption;
    (destruct (decide (name = k)) as [->|Hn];
     [rewrite lookup_insert_eq; eauto | now rewrite lookup_insert_ne]).
Qed.

Lemma effect_log (name : string) (e : Effect) (st : State) :
  tidy name e ->
  match effect name e st with
  | Returned _ st' =>
      log st' = log st
      \/ (name = "icon" /\ log st' = (log st ++ [NoSourceIcon])%list)
  | Exited code st' =>
      code = 1
      /\ exists msg, msg <> Blank /\ log st' = (log st ++ [msg; Blank])%list
  | Thrown st' => st' = st
  end.
Proof.
  destruct e as [|v w|msg w|]; cbn [effect tidy log].
  - now left.
  - intros [->|[-> ->]]; [now left | right; now split].
  - intros Hm. split; [reflexivity|]. exists msg. split; [exact Hm|].
    now rewrite <- app_assoc.
  - reflexivity.
Qed.

(** Two validators of different names that both return can run in either
    order. *)
Lemma effects_commute (a b : string) (ea eb : Effect) (st st' : State) :
  a <> b -> tidy a ea -> tidy b eb ->
  ((effect a ea : M unit) ;; (effect b eb : M unit)) st = Returned tt st' ->
  ((effect b eb : M unit) ;; (effect a ea : M unit)) st = Returned tt st'.
Proof.
  intros Hab Ta Tb. unfold mbind, M_bind.
  destruct ea as [|va wa| |], eb as [|vb wb| |];
    cbn [effect argv log]; try discriminate; try (intros ->; reflexivity);
    try (intros E; exact E).
  intros [= <-]. do 2 f_equal.
  - now apply insert_insert_ne.
  - cbn [tidy] in Ta, Tb.
    destruct Ta as [->|[-> ->]], Tb as [->|[-> ->]];
      try reflexivity; now destruct Hab.
Qed.

(** ** The loop of parseArgv *)

Section Invocation.

Context `{Host}.

Lemma parseArgv_next (name : string) (rest : list string) (st : State) :
  parseArgv (name :: rest) st
  = match validate name st with
    | Returned _ st' => parseArgv rest st'
    | Exited code st' => Exited code st'
    | Thrown st' => Thrown st'
    end.
Proof. reflexivity. Qed.

Lemma parseArgv_one (name : string) (st : State) :
  parseArgv [name] st = validate name st.
Proof.
  rewrite parseArgv_next. now destruct (validate name st) as [[] ?| |].
Qed.

Lemma validate_registered (name : string) (fn : Val -> M unit) (st : State) :
  parsers !! name = Some fn -> validate name st = fn (entry name st) st.
Proof. intros P. unfold validate. now rewrite P. Qed.

Lemma registered_lookup (name : string) :
  name ∈ registeredNames <-> is_Some (parsers !! name).
Proof.
  split.
  - unfold registeredNames. intros Hin.
    repeat (apply elem_of_cons in Hin as [->|Hin]; [eexists; reflexivity|]).
    now apply elem_of_nil in Hin.
  - intros [fn P]. apply parsers_registered in P.
    repeat (apply elem_of_cons in P as [P|P]; [injection P as -> _; listed|]).
    now apply elem_of_nil in P.
Qed.

(** A turn of the loop has one effect for each value of the entry it
    reads (and, for a color, of the themeColor entry). *)
Lemma validate_effect (name : string) (value tc : Val) :
  exists e, tidy name e /\ forall st,
    entry name st = value ->
    (name ∈ "themeColor" :: dependentColors -> themeColorOf st = tc) ->
    validate name st = effect name e st.
Proof.
  destruct (parsers !! name) as [fn|] eqn:P.
  - destruct (registered_effect name fn value tc P) as (e & Ht & He).
    exists e. split; [exact Ht|]. intros st <- Hc.
    rewrite (validate_registered name fn st P). now apply He.
  - exists (Fails (InvalidParameter name) None). split; [discriminate|].
    intros st _ _. unfold validate. now rewrite P.
Qed.

Lemma validate_here (name : string) (st : State) :
  exists e, tidy name e /\ validate name st = effect name e st.
Proof.
  destruct (validate_effect name (entry name st) (themeColorOf st))
    as (e & Ht & He).
  exists e. split; [exact Ht|]. now apply He.
Qed.

(** What a turn for [a] leaves of the inputs of a later turn for [b]. *)
Lemma inputs_kept (a b : string) (e : Effect) (st : State) :
  a <> b ->
  ~ (a = "themeColor" /\ b ∈ dependentColors) ->
  entry b (state_of (effect a e st)) = entry b st
  /\ (b ∈ "themeColor" :: dependentColors ->
      themeColorOf (state_of (effect a e st)) = themeColorOf st).
Proof.
  intros Hab Hth. split.
  - unfold entry. now rewrite effect_frame by congruence.
  - intros Hb. unfold themeColorOf.
    destruct (decide (a = "themeColor")) as [->|Ha].
    + apply elem_of_cons in Hb as [->|Hb]; [now destruct Hab|].
      destruct Hth. now split.
    + now rewrite effect_frame by congruence.
Qed.

(** Two turns in a row, as the effects of their validators on the
    record they start from. *)
Lemma validate_twice (a b : string) (st : State) :
  a <> b ->
  ~ (a = "themeColor" /\ b ∈ dependentColors) ->
  ~ (b = "themeColor" /\ a ∈ dependentColors) ->
  exists ea eb,
    tidy a ea /\ tidy b eb
    /\ validate a st = effect a ea st
    /\ validate b st = effect b eb st
    /\ (validate a ;; validate b) st
       = ((effect a ea : M unit) ;; (effect b eb : M unit)) st
    /\ (validate b ;; validate a) st
       = ((effect b eb : M unit) ;; (effect a ea : M unit)) st.
Proof.
  intros Hab Hth Hth'.
  assert (Hba : b <> a) by congruence.
  destruct (validate_effect a (entry a st) (themeColorOf st))
    as (ea & Ta & Ha).
  destruct (validate_effect b (entry b st) (themeColorOf st))
    as (eb & Tb & Hb).
  pose proof (Ha st eq_refl (fun _ => eq_refl)) as Ea.
  pose proof (Hb st eq_refl (fun _ => eq_refl)) as Eb.
  destruct (inputs_kept a b ea st Hab Hth) as [I1 I2].
  destruct (inputs_kept b a eb st Hba Hth') as [I3 I4].
  pose proof (Hb _ I1 I2) as Eb'.
  pose proof (Ha _ I3 I4) as Ea'.
  exists ea, eb. repeat apply conj; try assumption.
  - unfold mbind, M_bind. rewrite Ea.
    destruct ea; cbn [effect state_of] in Eb' |- *;
      try reflexivity; now rewrite Eb'.
  - unfold mbind, M_bind. rewrite Eb.
    destruct eb; cbn [effect state_of] in Ea' |- *;
      try reflexivity; now rewrite Ea'.
Qed.

Lemma validate_swap (a b : string) (st st' : State) :
  ~ (a = "themeColor" /\ b ∈ dependentColors) ->
  ~ (b = "themeColor" /\ a ∈ dependentColors) ->
  (validate a ;; validate b) st = Returned tt st' ->
  (validate b ;; validate a) st = Returned tt st'.
Proof.
  intros Hab Hba.
  destruct (decide (a = b)) as [->|Hne]; [trivial|].
  destruct (validate_twice a b st Hne Hab Hba)
    as (ea & eb & Ta & Tb & _ & _ & E1 & E2).
  rewrite E1, E2. now apply effects_commute.
Qed.

End Invocation.

(** ** What parseArgv touches *)

Section Process.

Context `{Host}.

Lemma parseArgv_two (a b : string) (rest : list string) (st : State) :
  parseArgv (a :: b :: rest) st
  = match (validate a ;; validate b) st with
    | Returned _ st' => parseArgv rest st'
    | Exited code st' => Exited code st'
    | Thrown st' => Thrown st'
    end.
Proof.
  rewrite parseArgv_next. unfold mbind, M_bind.
  destruct (validate a st) as [[] s| |]; reflexivity.
Qed.

Lemma parseArgv_other_entries (list : list string) (st : State) (k : string) :
  k ∉ list ->
  argv (state_of (parseArgv list st)) !! k = argv st !! k.
Proof.
  revert st. induction list as [|x l IH]; intros st Hk; [reflexivity|].
  apply not_elem_of_cons in Hk as [Hx Hl].
  rewrite parseArgv_next.
  destruct (validate_here x st) as (e & _ & ->).
  pose proof (effect_frame x k e st Hx) as F.
  destruct e as [|v w|msg wr|]; cbn [effect state_of] in F |- *;
    try exact F; try reflexivity; [now apply IH|].
  now rewrite IH.
Qed.

Lemma parseArgv_keeps_entries (list : list string) (st : State) (k : string) :
  is_Some (argv st !! k) ->
  is_Some (argv (state_of (parseArgv list st)) !! k).
Proof.
  revert st. induction list as [|x l IH]; intros st Hk; [exact Hk|].
  rewrite parseArgv_next.
  destruct (validate_here x st) as (e & _ & ->).
  pose proof (effect_keeps_entries x k e st Hk) as F.
  destruct e as [|v w|msg wr|]; cbn [effect state_of] in F |- *;
    try exact F; now apply IH.
Qed.

Lemma parseArgv_status (list : list string) (st st' : State) (code : Z) :
  parseArgv list st = Exited code st' -> code = 1.
Proof.
  revert st. induction list as [|x l IH]; intros st; [discriminate|].
  rewrite parseArgv_next.
  destruct (validate_here x st) as (e & _ & ->).
  destruct e as [|v w|msg wr|]; cbn [effect]; try discriminate;
    try apply IH.
  now intros [= <- _].
Qed.

(** The entry of a requested name, once [parseArgv] has returned, is the
    one the last turn for that name left. *)
Lemma parseArgv_last (name : string) (list : list string) (st st' : State) :
  name ∈ list ->
  parseArgv list st = Returned tt st' ->
  exists st1 st2,
    validate name st1 = Returned tt st2
    /\ argv st' !! name = argv st2 !! name.
Proof.
  revert st. induction list as [|x l IH]; intros st Hin R.
  - now apply elem_of_nil in Hin.
  - rewrite parseArgv_next in R.
    destruct (validate x st) as [[] s| |] eqn:V; try discriminate.
    destruct (decide (name ∈ l)) as [Hl|Hl]; [now apply (IH s)|].
    apply elem_of_cons in Hin as [->|Hin]; [|contradiction].
    exists st, s. split; [exact V|].
    pose proof (parseArgv_other_entries l s x Hl) as F.
    now rewrite R in F.
Qed.

Lemma unthemed_tail (x : string) (l : list string) :
  unthemed (x :: l) -> unthemed l.
Proof.
  intros U Ht c Hc Hl.
  apply (U ltac:(now apply list_elem_of_further) c Hc).
  now apply list_elem_of_further.
Qed.

Lemma unthemed_pair (a b : string) (l : list string) :
  unthemed (a :: l) -> b ∈ l ->
  ~ (a = "themeColor" /\ b ∈ dependentColors)
  /\ ~ (b = "themeColor" /\ a ∈ dependentColors).
Proof.
  intros U Hb. split; intros [-> Hd].
  - apply (U ltac:(apply list_elem_of_here) b Hd).
    now apply list_elem_of_further.
  - apply (U ltac:(now apply list_elem_of_further) a Hd).
    apply list_elem_of_here.
Qed.

Lemma unthemed_permutation (l1 l2 : list string) :
  l1 ≡ₚ l2 -> unthemed l1 -> unthemed l2.
Proof.
  intros P U Ht c Hc Hl. rewrite <- P in Ht, Hl. exact (U Ht c Hc Hl).
Qed.

End Process.

(** ** The registry as a whole *)

(** X1. The outcome of a registered validator is decided by the value it
    is handed: on any two records it returns, exits or throws alike, with
    the same message and the same value written under its own name. Only
    the four color validators also read the record, and of the record only
    the themeColor entry. *)
Theorem validator_reads_its_value `{Host} (name : string)
    (fn : Val -> M unit) (value : Val) (st1 st2 : State) :
  parsers !! name = Some fn ->
  (name ∈ "themeColor" :: dependentColors ->
   themeColorOf st1 = themeColorOf st2) ->
  exists e,
    fn value st1 = effect name e st1 /\ fn value st2 = effect name e st2.
Proof.
  intros P Hc.
  destruct (registered_effect name fn value (themeColorOf st2) P)
    as (e & _ & He).
  exists e. split; apply He; [exact Hc | reflexivity].
Qed.

Lemma validator_reads_its_value_witness :
  exists e,
    @quality sampleHost (VStr "7") (initial [("mode", VStr "spa")])
    = effect "quality" e (initial [("mode", VStr "spa")])
    /\ @quality sampleHost (VStr "7") (initial [("quality", VStr "99")])
       = effect "quality" e (initial [("quality", VStr "99")]).
Proof.
  apply (@validator_reads_its_value sampleHost "quality");
    [reflexivity|].
  intros Hin. exfalso.
  repeat (apply elem_of_cons in Hin as [Hin|Hin]; [discriminate|]).
  now apply elem_of_nil in Hin.
Defined.

(** X2. Whatever the value and however it ends, a registered validator
    leaves every entry but its own as it found it, and removes none. *)
Theorem validator_touches_own_entry `{Host} (name : string)
    (fn : Val -> M unit) (value : Val) (st : State) (k : string) :
  parsers !! name = Some fn ->
  (k <> name -> argv (state_of (fn value st)) !! k = argv st !! k)
  /\ (is_Some (argv st !! k) ->
      is_Some (argv (state_of (fn value st)) !! k)).
Proof.
  intros P.
  destruct (registered_effect name fn value (themeColorOf st) P)
    as (e & _ & He).
  rewrite (He st (fun _ => eq_refl)). split.
  - apply effect_frame.
  - apply effect_keeps_entries.
Qed.

Lemma validator_touches_own_entry_witness :
  let st := initial [("quality", VStr "7")] in
  argv (state_of (@icon sampleHost (VStr "missing.png") st)) !! "quality"
  = argv st !! "quality"
  /\ is_Some (argv (state_of (@icon sampleHost (VStr "missing.png") st))
                !! "quality").
Proof.
  intros st.
  destruct (@validator_touches_own_entry sampleHost "icon" (@icon sampleHost)
              (VStr "missing.png") st "quality" eq_refl) as [F K].
  split; [apply F; discriminate | apply K; eexists; reflexivity].
Defined.

(** X3. How a registered validator ends. When it returns it has logged
    nothing, except icon, which may have logged the one warning about the
    sample icon. When it exits, the status is 1 and it has logged exactly
    one message followed by the blank line. When a TypeError escapes,
    record and log are as they were. *)
Theorem validator_exit_and_log `{Host} (name : string)
    (fn : Val -> M unit) (value : Val) (st : State) :
  parsers !! name = Some fn ->
  match fn value st with
  | Returned _ st' =>
      log st' = log st
      \/ (name = "icon" /\ log st' = (log st ++ [NoSourceIcon])%list)
  | Exited code st' =>
      code = 1
      /\ exists msg, msg <> Blank /\ log st' = (log st ++ [msg; Blank])%list
  | Thrown st' => st' = st
  end.
Proof.
  intros P.
  destruct (registered_effect name fn value (themeColorOf st) P)
    as (e & Ht & He).
  rewrite (He st (fun _ => eq_refl)). now apply effect_log.
Qed.

Lemma validator_exit_and_log_witness :
  match output VUndef (initial []) with
  | Returned _ st' =>
      log st' = log (initial [])
      \/ ("output" = "icon"
          /\ log st' = (log (initial []) ++ [NoSourceIcon])%list)
  | Exited code st' =>
      code = 1
      /\ exists msg,
           msg <> Blank /\ log st' = (log (initial []) ++ [msg; Blank])%list
  | Thrown st' => st' = initial []
  end.
Proof.
  apply (@validator_exit_and_log sampleHost "output"). reflexivity.
Defined.

(** ** A whole invocation, in parts and in any order *)

(** X4. Validating a list of names is validating a first part of it and
    then, on the record that leaves, the rest; when the first part does
    not return, nothing of the rest runs and its outcome is the outcome of
    the whole. *)
Theorem parseArgv_sequential `{Host} (l1 l2 : list string) (st : State) :
  parseArgv (l1 ++ l2) st
  = match parseArgv l1 st with
    | Returned _ st' => parseArgv l2 st'
    | Exited code st' => Exited code st'
    | Thrown st' => Thrown st'
    end.
Proof.
  revert st. induction l1 as [|x l IH]; intros st; [reflexivity|].
  cbn [app]. rewrite !parseArgv_next.
  destruct (validate x st) as [[] s| |]; [apply IH | reflexivity..].
Qed.

(** X5. parseArgv touches only the entries it is asked to validate:
    however it ends, an entry whose name is not in the list is as it was,
    no entry has been removed, and if the process exits the status
    is 1. *)
Theorem parseArgv_touches_requested `{Host} (list : list string)
    (st : State) (k : string) :
  (k ∉ list -> argv (state_of (parseArgv list st)) !! k = argv st !! k)
  /\ (is_Some (argv st !! k) ->
      is_Some (argv (state_of (parseArgv list st)) !! k))
  /\ (forall code st', parseArgv list st = Exited code st' -> code = 1).
Proof.
  repeat apply conj.
  - apply parseArgv_other_entries.
  - apply parseArgv_keeps_entries.
  - intros code st'. apply parseArgv_status.
Qed.

Lemma parseArgv_touches_requested_witness :
  let st := initial [("quality", VStr "7"); ("output", VStr "dist")] in
  argv (state_of (@parseArgv sampleHost ["quality"; "mode"] st)) !! "output"
  = argv st !! "output"
  /\ is_Some (argv (state_of (@parseArgv sampleHost ["quality"; "mode"] st))
                !! "output").
Proof.
  intros st.
  destruct (@parseArgv_touches_requested sampleHost ["quality"; "mode"] st
              "output") as (F & K & _).
  split; [apply F; not_listed | apply K; eexists; reflexivity].
Defined.

(** X6. The order of the names does not matter to a run that returns:
    if parseArgv returns on a list, it returns on every reordering of it
    with the same record and the same log. The one exception is a list
    that asks for themeColor together with a color that falls back on
    it. *)
Theorem validation_order `{Host} (l1 l2 : list string) (st st' : State) :
  l1 ≡ₚ l2 ->
  unthemed l1 ->
  parseArgv l1 st = Returned tt st' ->
  parseArgv l2 st = Returned tt st'.
Proof.
  intros P. revert st st'.
  induction P as [|x l l' P IH|x y l|l l' l'' P1 IH1 P2 IH2];
    intros st st' U R.
  - exact R.
  - rewrite parseArgv_next in R |- *.
    destruct (validate x st) as [[] s| |]; try discriminate.
    apply IH; [now apply unthemed_tail in U | exact R].
  - rewrite parseArgv_two in R |- *.
    destruct ((validate y ;; validate x) st) as [[] s| |] eqn:E;
      try discriminate.
    destruct (unthemed_pair y x (x :: l) U ltac:(apply list_elem_of_here))
      as [Hyx Hxy].
    now rewrite (validate_swap y x st s Hyx Hxy E).
  - apply IH2; [now apply (unthemed_permutation l l') | now apply IH1].
Qed.

Lemma validation_order_witness :
  let st := initial [("quality", VStr "7"); ("padding", VStr "10")] in
  @parseArgv sampleHost ["icon"; "quality"; "padding"] st
  = Returned tt
      (mkState
         (list_to_map
            [("icon", VStr "/pkg/samples/icongenie-icon.png");
             ("padding", VArr [VNum (Number.of_Z 10); VNum (Number.of_Z 10)]);
             ("quality", VNum (Number.of_Z 7))])
         [NoSourceIcon]).
Proof.
  intros st.
  apply (@validation_order sampleHost ["quality"; "icon"; "padding"]).
  - apply perm_swap.
  - intros Ht. exfalso.
    repeat (apply elem_of_cons in Ht as [Ht|Ht]; [discriminate|]).
    now apply elem_of_nil in Ht.
  - vm_compute. reflexivity.
Defined.

(** X7. Validators do not depend on each other: on a list without
    repetition, parseArgv returns exactly when each requested name,
    validated alone on the record as it was at the start, returns. Again
    the exception is themeColor asked for together with a color that
    falls back on it. *)
Theorem validators_independent `{Host} (list : list string) (st : State) :
  NoDup list ->
  unthemed list ->
  returned (parseArgv list st) = true
  <-> Forall (fun name => returned (parseArgv [name] st) = true) list.
Proof.
  revert st. induction list as [|x l IH]; intros st ND U.
  - split; [constructor | reflexivity].
  - apply NoDup_cons in ND as [Hx ND].
    rewrite Forall_cons, parseArgv_one, parseArgv_next.
    destruct (validate_effect x (entry x st) (themeColorOf st))
      as (e & _ & He).
    rewrite (He st eq_refl (fun _ => eq_refl)), effect_returned.
    assert (Same : forall n, n ∈ l ->
              returned (parseArgv [n] (state_of (effect x e st)))
              = returned (parseArgv [n] st)).
    { intros n Hn. rewrite !parseArgv_one.
      assert (Hxn : x <> n) by (intros ->; contradiction).
      destruct (unthemed_pair x n l U Hn) as [Hth _].
      destruct (inputs_kept x n e st Hxn Hth) as [I1 I2].
      destruct (validate_effect n (entry n st) (themeColorOf st))
        as (en & _ & Hen).
      rewrite (Hen _ I1 I2), (Hen st eq_refl (fun _ => eq_refl)).
      now rewrite !effect_returned. }
    assert (Rest : returned (parseArgv l (state_of (effect x e st))) = true
                   <-> Forall (fun n => returned (parseArgv [n] st) = true) l).
    { rewrite (IH _ ND (unthemed_tail x l U)), !Forall_forall.
      split; intros F n Hn; [rewrite <- Same | rewrite Same]; auto. }
    destruct e as [|v w|msg wr|]; cbn [effect accepts state_of] in Rest |- *.
    + rewrite Rest. tauto.
    + rewrite Rest. tauto.
    + split; [discriminate | now intros [? _]].
    + split; [discriminate | now intros [? _]].
Qed.

Lemma validators_independent_witness :
  let st := initial [("quality", VStr "7"); ("padding", VStr "10")] in
  returned (@parseArgv sampleHost ["quality"; "padding"] st) = true
  <-> Forall (fun name => returned (@parseArgv sampleHost [name] st) = true)
        ["quality"; "padding"].
Proof.
  intros st. apply (@validators_independent sampleHost).
  - apply NoDup_cons. split.
    + intros Hin. apply elem_of_cons in Hin as [Hin|Hin]; [discriminate|].
      now apply elem_of_nil in Hin.
    + apply NoDup_singleton.
  - intros Ht. exfalso.
    repeat (apply elem_of_cons in Ht as [Ht|Ht]; [discriminate|]).
    now apply elem_of_nil in Ht.
Defined.

(** themeColor first or last makes a difference to the colors that fall
    back on it. *)
Example themeColor_order_matters :
  let st := initial [("themeColor", VStr "abc")] in
  argv (state_of (@parseArgv sampleHost ["themeColor"; "pngColor"] st))
    !! "pngColor" = Some (VStr "#abc")
  /\ argv (state_of (@parseArgv sampleHost ["pngColor"; "themeColor"] st))
       !! "pngColor" = Some (VStr "abc").
Proof. vm_compute. split; reflexivity. Qed.

(** ** The validators the other sections leave out *)

(** The number 0, of either sign, is a ratio within bounds. *)
Lemma zero_ratio (v : Val) :
  is_zero v = true -> between 0 100 (parseFloat v) = true.
Proof.
  destruct v as [| |b|n|s|l]; try (intros Z; discriminate Z).
  cbn [is_zero]. unfold Number.strict_eq.
  replace (Number.of_Z 0) with (S754_zero false) by (vm_compute; reflexivity).
  destruct n as [[|]|[|]| |[|] m e]; cbn [SFeqb SFcompare];
    try (intros Z; discriminate Z); intros _; vm_compute; reflexivity.
Qed.

(** X8. output is the only required parameter: on an empty entry
    (missing, undefined, null, false, the empty string, NaN, or, except
    for splashscreenIconRatio, which takes it as a ratio and accepts it,
    the number 0) every registered validator returns, except output, which
    exits. *)
Theorem output_alone_required `{Host} (name : string) (st : State) :
  name ∈ registeredNames ->
  truthy (entry name st) = false ->
  (returned (parseArgv [name] st) = true <-> name <> "output").
Proof.
  intros Hin T. rewrite parseArgv_one. unfold registeredNames in Hin.
  repeat (apply elem_of_cons in Hin as [->|Hin];
          [erewrite validate_registered by reflexivity; cbn [snd];
           first [ unfold profile, mode, include, quality, filter, padding,
                     icon, background, getColorParser, output, assets;
                   rewrite T; cbn [negb andb when];
                   split; [discriminate | reflexivity]
                 | unfold output; rewrite T; cbn [negb when];
                   split; [discriminate | now intros []]
                 | idtac ]
          |]).
  - destruct (is_zero (entry "splashscreenIconRatio" st)) eqn:Z.
    + rewrite (ratio_inside _ st (or_intror Z) (zero_ratio _ Z)).
      split; [discriminate | reflexivity].
    + rewrite (ratio_default _ st T Z).
      split; [discriminate | reflexivity].
  - now apply elem_of_nil in Hin.
Qed.

Lemma output_alone_required_witness :
  returned (@parseArgv sampleHost ["icon"] (initial [("icon", VStr "")]))
  = true
  <-> "icon" <> "output".
Proof.
  apply (@output_alone_required sampleHost "icon"); [listed | reflexivity].
Defined.

(** X9. profile. An empty value is left alone. Otherwise the value must
    be a string (a TypeError escapes if not) and is resolved against the
    working directory: a path that does not exist is fatal, whatever its
    name; an existing one is accepted when the value as typed ends in
    .json or the path is a directory, and the resolved path is what is
    stored. *)
Theorem profile_spec `{Host} (value : Val) (st : State) :
  (truthy value = false -> profile value st = Returned tt st)
  /\ (truthy value = true -> (forall s, value <> VStr s) ->
      profile value st = Thrown st)
  /\ (forall s, value = VStr s -> s <> "" ->
      let path := resolve cwd (untildify s) in
      profile value st
      = if negb (existsSync path) then fatal ProfileNotFound st
        else if Str.endsWith ".json" s || isDirectory path
        then Returned tt (store "profile" (VStr path) st)
        else fatal (ProfileNotJson value) st).
Proof.
  repeat apply conj.
  - intros T. unfold profile. now rewrite T.
  - intros T NS. unfold profile. rewrite T.
    destruct value as [| |b|n|s|l]; try reflexivity.
    now destruct (NS s).
  - intros s -> Hs path. unfold profile.
    rewrite (truthy_VStr s Hs). cbn [negb untildified ToString].
    rewrite bind_ret. fold path.
    destruct (existsSync path); cbn [negb];
      [|apply when_true_die].
    rewrite when_false_bind.
    destruct (Str.endsWith ".json" s); cbn [negb andb orb];
      [reflexivity|].
    destruct (isDirectory path); cbn [negb];
      [reflexivity | apply when_true_die].
Qed.

Lemma profile_spec_witness :
  @profile sampleHost (VStr "profiles") (initial [])
  = Returned tt (store "profile" (VStr "/work/profiles") (initial [])).
Proof.
  pose proof (proj2 (proj2 (@profile_spec sampleHost (VStr "profiles")
                              (initial [])))
                "profiles" eq_refl ltac:(discriminate)) as W.
  exact W.
Defined.

(** X10. filter and output only check. filter returns, with record and
    log as they were, exactly on an empty value and on a string that is
    the name of a generator; output exactly on a non-empty value. On
    anything else each logs its own message and exits with status 1, the
    record untouched. *)
Theorem filter_output_spec `{Host} (value : Val) (st : State) :
  (filter value st = Returned tt st
   <-> truthy value = false \/ exists s, value = VStr s /\ s ∈ generatorNames)
  /\ (returned (filter value st) = false ->
      filter value st = fatal (UnknownFilter value) st)
  /\ (output value st = Returned tt st <-> truthy value = true)
  /\ (returned (output value st) = false ->
      output value st = fatal OutputRequired st).
Proof.
  unfold filter, output. split; [|split; [|split]].
  - destruct (truthy value) eqn:T; cbn [andb].
    2:{ split; [now left | reflexivity]. }
    destruct value as [| |b|n|s|l]; cbn [knownGenerator negb when];
      try (split; [discriminate | intros [?|(s & ? & _)]; discriminate]).
    destruct (bool_decide_reflect (s ∈ generatorNames)) as [Hs|Hs];
      cbn [negb when].
    + split; [right; now exists s | reflexivity].
    + split; [discriminate|].
      intros [?|(s' & [= <-] & ?)]; [discriminate | contradiction].
  - destruct (truthy value && negb (knownGenerator value));
      [reflexivity | discriminate].
  - destruct (truthy value); cbn [negb when];
      split; try reflexivity; discriminate.
  - destruct (truthy value); cbn [negb when];
      [discriminate | reflexivity].
Qed.

Lemma filter_output_spec_witness :
  @filter sampleHost (VStr "png") (initial []) = Returned tt (initial [])
  /\ output (VStr "") (initial []) = fatal OutputRequired (initial []).
Proof.
  destruct (@filter_output_spec sampleHost (VStr "png") (initial []))
    as (F & _ & _ & _).
  destruct (@filter_output_spec sampleHost (VStr "") (initial []))
    as (_ & _ & _ & O).
  split.
  - apply F. right. exists "png". split; [reflexivity | listed].
  - apply O. reflexivity.
Defined.

(** X11. parseIconPath touches neither record nor log, and answers null
    or a path that exists. An absolute path is looked up as it is and
    nowhere else; a relative one first under the working directory and,
    only when it is not found there, under the application directory. *)
Theorem parseIconPath_spec `{Host} (s : string) (st : State) :
  let p := untildify s in
  exists r,
    parseIconPath (VStr s) st = Returned r st
    /\ (r = VNull \/ exists q, r = VStr q /\ existsSync q = true)
    /\ (isAbsolute p = true ->
        r = if existsSync p then VStr p else VNull)
    /\ (isAbsolute p = false -> existsSync (resolve cwd p) = true ->
        r = VStr (resolve cwd p))
    /\ (isAbsolute p = false -> existsSync (resolve cwd p) = false ->
        r = if existsSync (resolve appDir p)
            then VStr (resolve appDir p) else VNull).
Proof.
  intros p. unfold parseIconPath. cbn [untildified]. rewrite bind_ret.
  fold p. destruct (isAbsolute p).
  - destruct (existsSync p) eqn:E; eexists;
      (repeat apply conj; [reflexivity | eauto | reflexivity
                          | discriminate | discriminate]).
  - destruct (existsSync (resolve cwd p)) eqn:E1.
    + eexists. repeat apply conj;
        [reflexivity | eauto | discriminate | reflexivity | discriminate].
    + destruct (existsSync (resolve appDir p)) eqn:E2; eexists;
        (repeat apply conj; [reflexivity | eauto | discriminate
                            | discriminate | reflexivity]).
Qed.

Lemma parseIconPath_spec_witness :
  exists r,
    @parseIconPath sampleHost (VStr "icon.png") (initial [])
    = Returned r (initial [])
    /\ r = VStr "/work/icon.png".
Proof.
  destruct (@parseIconPath_spec sampleHost "icon.png" (initial []))
    as (r & E & _ & _ & Rel & _).
  exists r. split; [exact E | apply Rel; reflexivity].
Defined.

(** X12. icon. On an empty value it warns once and stores the sample
    icon, without looking at any file. On a non-empty string it stores
    what parseIconPath found and then checks it, one complaint at most and
    in this order: nothing found, not a PNG (both sides 0), too small
    (a side under 64); it returns exactly when the file was found and both
    sides are at least 64. *)
Theorem icon_spec `{Host} (value : Val) (st : State) :
  (truthy value = false ->
   icon value st
   = Returned tt
       (store "icon" (VStr sampleIcon)
          (mkState (argv st) (log st ++ [NoSourceIcon]))))
  /\ (forall s, value = VStr s -> s <> "" ->
      parseIconPath value st = Returned VNull st ->
      icon value st = fatal (IconPathMissing value) (store "icon" VNull st))
  /\ (forall s q, value = VStr s -> s <> "" -> q <> "" ->
      parseIconPath value st = Returned (VStr q) st ->
      icon value st
      = if (fst (getPngSize q) =? 0) && (snd (getPngSize q) =? 0)
        then fatal IconNotPng (store "icon" (VStr q) st)
        else if (fst (getPngSize q) <? 64) || (snd (getPngSize q) <? 64)
        then fatal IconTooSmall (store "icon" (VStr q) st)
        else Returned tt (store "icon" (VStr q) st)).
Proof.
  repeat apply conj.
  - intros T. unfold icon. now rewrite T.
  - intros s -> Hs Hp. unfold icon.
    rewrite (truthy_VStr s Hs). cbn [negb].
    rewrite (bind_returned _ _ _ _ _ Hp). run.
    rewrite lookup_insert_eq. reflexivity.
  - intros s q -> Hs Hq Hp. unfold icon.
    rewrite (truthy_VStr s Hs). cbn [negb].
    rewrite (bind_returned _ _ _ _ _ Hp). run.
    rewrite lookup_insert_eq. cbn [default from_option id].
    rewrite (truthy_VStr q Hq). cbn [negb]. run.
    rewrite lookup_insert_eq. cbn [default from_option id].
    destruct (getPngSize q) as [w h]. cbn [fst snd].
    destruct ((w =? 0) && (h =? 0)); run; [reflexivity|].
    destruct ((w <? 64) || (h <? 64)); reflexivity.
Qed.

Lemma icon_spec_witness :
  @icon sampleHost (VStr "small.png") (initial [])
  = fatal IconTooSmall (store "icon" (VStr "/work/small.png") (initial [])).
Proof.
  pose proof (proj2 (proj2 (@icon_spec sampleHost (VStr "small.png")
                              (initial [])))
                "small.png" "/work/small.png" eq_refl
                ltac:(discriminate) ltac:(discriminate) eq_refl) as W.
  exact W.
Defined.

(** X13. background. An empty value is left alone. A non-empty string
    is resolved against the application directory only (never the
    working directory), stored, and then checked, one complaint at most
    and in this order: no such file, not a PNG (both sides 0), too small
    (a side under 128); any other non-empty value lets a TypeError
    escape. *)
Theorem background_spec `{Host} (value : Val) (st : State) :
  (truthy value = false -> background value st = Returned tt st)
  /\ (truthy value = true -> (forall s, value <> VStr s) ->
      background value st = Thrown st)
  /\ (forall s, value = VStr s -> s <> "" ->
      let path := resolve appDir (untildify s) in
      let stored := store "background" (VStr path) st in
      background value st
      = if negb (existsSync path)
        then fatal (BackgroundPathMissing value) stored
        else if (fst (getPngSize path) =? 0) && (snd (getPngSize path) =? 0)
        then fatal BackgroundNotPng stored
        else if (fst (getPngSize path) <? 128)
                || (snd (getPngSize path) <? 128)
        then fatal BackgroundTooSmall stored
        else Returned tt stored).
Proof.
  repeat apply conj.
  - intros T. unfold background. now rewrite T.
  - intros T NS. unfold background. rewrite T.
    destruct value as [| |b|n|s|l]; try reflexivity.
    now destruct (NS s).
  - intros s -> Hs path stored. subst stored.
    rewrite (background_found s st (truthy_VStr s Hs)). cbn zeta. fold path.
    destruct (existsSync path); cbn [negb]; [|reflexivity].
    destruct ((fst (getPngSize path) =? 0) && (snd (getPngSize path) =? 0));
      [reflexivity|].
    destruct ((fst (getPngSize path) <? 128)
              || (snd (getPngSize path) <? 128)); reflexivity.
Qed.

Lemma background_spec_witness :
  @background sampleHost (VStr "bg.png") (initial [])
  = Returned tt (store "background" (VStr "/app/bg.png") (initial [])).
Proof.
  pose proof (proj2 (proj2 (@background_spec sampleHost (VStr "bg.png")
                              (initial [])))
                "bg.png" eq_refl ltac:(discriminate)) as W.
  exact W.
Defined.

(** X14. What a caller can rely on once parseArgv has returned, whatever
    else the list held and in whatever order: if icon was requested, the
    icon entry is the sample icon or a file that exists and measures at
    least 64 by 64; if background was requested, the background entry is
    either still empty or a file that exists and measures at least 128
    by 128. *)
Theorem parseArgv_images_ready `{Host} (list : list string)
    (st st' : State) :
  parseArgv list st = Returned tt st' ->
  ("icon" ∈ list ->
   exists path, argv st' !! "icon" = Some (VStr path)
     /\ (path = sampleIcon \/ pngAtLeast 64 path))
  /\ ("background" ∈ list ->
      truthy (entry "background" st') = false
      \/ exists path, argv st' !! "background" = Some (VStr path)
           /\ pngAtLeast 128 path).
Proof.
  intros R. split; intros Hin.
  - destruct (parseArgv_last "icon" list st st' Hin R)
      as (s1 & s2 & V & ->).
    rewrite (validate_registered "icon" icon s1 eq_refl) in V.
    destruct (truthy (entry "icon" s1)) eqn:T.
    + pose proof (icon_checked (entry "icon" s1) s1 T) as C.
      rewrite V in C. destruct (C eq_refl) as (path & Hp & Hs).
      exists path. split; [exact Hp | now right].
    + unfold icon in V. rewrite T in V. injection V as <-.
      exists sampleIcon. split; [apply lookup_insert_eq | now left].
  - destruct (parseArgv_last "background" list st st' Hin R)
      as (s1 & s2 & V & E).
    unfold entry. rewrite E.
    rewrite (validate_registered "background" background s1 eq_refl) in V.
    destruct (truthy (entry "background" s1)) eqn:T.
    + right. pose proof (background_checked (entry "background" s1) s1 T) as C.
      rewrite V in C. exact (C eq_refl).
    + left. unfold background in V. rewrite T in V. injection V as <-.
      exact T.
Qed.

Lemma parseArgv_images_ready_witness :
  let st := initial [("icon", VStr "icon.png"); ("background", VStr "bg.png")] in
  let st' := state_of (@parseArgv sampleHost ["background"; "icon"] st) in
  (exists path, argv st' !! "icon" = Some (VStr path)
     /\ (path = @sampleIcon sampleHost \/ @pngAtLeast sampleHost 64 path))
  /\ (truthy (entry "background" st') = false
      \/ exists path, argv st' !! "background" = Some (VStr path)
           /\ @pngAtLeast sampleHost 128 path).
Proof.
  intros st st'.
  assert (R : @parseArgv sampleHost ["background"; "icon"] st
              = Returned tt st') by (vm_compute; reflexivity).
  destruct (@parseArgv_images_ready sampleHost ["background"; "icon"]
              st st' R) as [I B].
  split; [apply I | apply B]; listed.
Defined.

(** ** Validating twice *)

(** The decimal form of a level from 1 to 12 reads back as that level. *)
Lemma level_reads_back (n : Z) :
  1 <= n <= 12 ->
  truthy (VNum (Number.of_Z n)) = true
  /\ leadingInteger (ToString (VNum (Number.of_Z n))) = Some n.
Proof.
  intros Hn.
  assert (Cases : n = 1 \/ n = 2 \/ n = 3 \/ n = 4 \/ n = 5 \/ n = 6
                  \/ n = 7 \/ n = 8 \/ n = 9 \/ n = 10 \/ n = 11 \/ n = 12)
    by lia.
  repeat (destruct Cases as [->|Cases]; [vm_compute; split; reflexivity|]).
  subst n. vm_compute. split; reflexivity.
Qed.

(** X15. quality can be validated again: when it has accepted a
    non-empty value, what it stored is an integer level from 1 to 12, and
    validating the stored level returns with the record and the log
    unchanged. *)
Theorem quality_twice `{Host} (value : Val) (st st' : State) :
  truthy value = true ->
  quality value st = Returned tt st' ->
  (exists n, 1 <= n <= 12 /\ entry "quality" st' = VNum (Number.of_Z n))
  /\ quality (entry "quality" st') st' = Returned tt st'.
Proof.
  intros T. rewrite (quality_integer value st T).
  destruct (leadingInteger (ToString value)) as [n|]; [|discriminate].
  destruct ((1 <=? n) && (n <=? 12)) eqn:R; [|discriminate].
  intros [= <-].
  assert (Hn : 1 <= n <= 12) by lia.
  destruct (level_reads_back n Hn) as [Tn Ln].
  assert (E : entry "quality" (store "quality" (VNum (Number.of_Z n)) st)
              = VNum (Number.of_Z n)).
  { unfold entry, store. cbn [argv]. now rewrite lookup_insert_eq. }
  rewrite E. split; [now exists n|].
  rewrite (quality_integer _ _ Tn), Ln, R.
  unfold store. cbn [argv log]. now rewrite insert_insert_eq.
Qed.

Lemma quality_twice_witness :
  let st' := store "quality" (VNum (Number.of_Z 7)) (initial []) in
  (exists n, 1 <= n <= 12 /\ entry "quality" st' = VNum (Number.of_Z n))
  /\ @quality sampleHost (entry "quality" st') st' = Returned tt st'.
Proof.
  intros st'.
  apply (@quality_twice sampleHost (VStr "7") (initial []));
    vm_compute; reflexivity.
Defined.

(** X16. mode and assets cannot be validated again: whenever one of them
    returns, what it leaves in its entry is an array, and handing that
    entry back to it lets a TypeError escape, the record untouched. *)
Theorem mode_assets_once `{Host} (name : string) (fn : Val -> M unit)
    (value : Val) (st st' : State) :
  (name, fn) ∈ [("mode", mode); ("assets", assets)] ->
  fn value st = Returned tt st' ->
  (exists l, entry name st' = VArr l)
  /\ fn (entry name st') st' = Thrown st'.
Proof.
  intros Hin.
  repeat (apply elem_of_cons in Hin as [Hin|Hin];
          [injection Hin as -> ->;
           first [unfold mode at 1 | unfold assets at 1];
           destruct value; cbn [truthy negb splitCommas];
           rewrite ?bind_ret; conditions; run;
           try discriminate; intros [= <-];
           unfold entry; cbn [argv]; rewrite lookup_insert_eq;
           cbn [default from_option id]; (split; [eexists; reflexivity|]);
           reflexivity
          |]).
  now apply elem_of_nil in Hin.
Qed.

Lemma mode_assets_once_witness :
  let st' := store "assets" (VArr []) (initial []) in
  (exists l, entry "assets" st' = VArr l)
  /\ @assets sampleHost (entry "assets" st') st' = Thrown st'.
Proof.
  intros st'.
  apply (@mode_assets_once sampleHost "assets" (@assets sampleHost) VUndef
           (initial []) st'); [listed | reflexivity].
Defined.

(** X17. A name the registry does not know stops the run: once the names
    before it have been validated, parseArgv logs the name as an invalid
    parameter and exits with status 1; the record is as those names left
    it and none of the names after it is looked at. (The names every
    object inherits are set aside: the registry answers to them with
    something that is not a validator.) *)
Theorem unknown_name_fatal `{Host} (before after : list string)
    (name : string) (st st1 : State) :
  name ∉ registeredNames ->
  name ∉ inheritedNames ->
  parseArgv before st = Returned tt st1 ->
  parseArgv (before ++ name :: after) st
  = fatal (InvalidParameter name) st1.
Proof.
  intros Hr _. revert st. induction before as [|x l IH]; intros st R.
  - injection R as ->. cbn [app]. rewrite parseArgv_next.
    unfold validate.
    destruct (parsers !! name) as [fn|] eqn:P; [|reflexivity].
    destruct Hr. apply registered_lookup. now exists fn.
  - cbn [app]. rewrite parseArgv_next in R |- *.
    destruct (validate x st) as [[] s| |]; try discriminate.
    now apply IH.
Qed.

Lemma unknown_name_fatal_witness :
  @parseArgv sampleHost (["quality"] ++ "qualty" :: ["output"])
    (initial [("quality", VStr "7")])
  = fatal (InvalidParameter "qualty")
      (initial [("quality", VNum (Number.of_Z 7))]).
Proof.
  apply (@unknown_name_fatal sampleHost); [not_listed | not_listed|].
  vm_compute. reflexivity.
Defined.

(** ** Values that come as text *)

Section Text.

Context `{Host}.




End Text.



(** A number where text is expected does crash: padding handed the
    number 10 lets a TypeError escape. *)
Example padding_number_throws :
  padding (VNum (Number.of_Z 10)) (initial []) = Thrown (initial []).
Proof. vm_compute. reflexivity. Qed.
